(** * extractor.py: field extraction from invoice-like text

    A shallow embedding of [extractor.py] and the properties of
    [extract_fields] and of the stages it is built from.

    Python strings are sequences of Unicode code points; floats are IEEE-754
    binary64 values; operations that can raise in Python return a [result].
    The character tables of CPython's Unicode database and the external
    [dateparser] package are not part of the repository: they are taken as
    parameters, and everything ASCII is defined here. *)

From Stdlib Require Import List NArith ZArith Bool String Ascii Lia Sorted.
Import ListNotations.

Set Implicit Arguments.

(** ** Strings *)

Module Str.

(** A code point. *)
Definition char := N.

(** A Python [str]. *)
Definition str := list char.

Fixpoint of_string (s : string) : str :=
  match s with
  | EmptyString => []
  | String a s' => N_of_ascii a :: of_string s'
  end.

Definition eqb (a b : str) : bool :=
  if list_eq_dec N.eq_dec a b then true else false.

Fixpoint starts_with (p s : str) : bool :=
  match p, s with
  | [], _ => true
  | _ :: _, [] => false
  | a :: p', b :: s' => (a =? b)%N && starts_with p' s'
  end.

(** [sub in s] *)
Fixpoint contains (sub s : str) : bool :=
  starts_with sub s ||
  match s with
  | [] => false
  | _ :: s' => contains sub s'
  end.

(** [s.rfind(c)] for a one-character needle; [-1] when absent. *)
Fixpoint rfind_from (c : char) (s : str) (i : Z) (last : Z) : Z :=
  match s with
  | [] => last
  | x :: s' => rfind_from c s' (i + 1) (if (x =? c)%N then i else last)
  end.

Definition rfind (c : char) (s : str) : Z := rfind_from c s 0 (-1).

(** [s.replace(old, new)]: every non-overlapping occurrence, left to right.
    With an empty [old] Python inserts [new] before every character and at
    the end. *)
Fixpoint replace_go (fuel : nat) (old new s : str) : str :=
  match fuel with
  | O => s
  | S fuel' =>
      match s with
      | [] => []
      | x :: s' =>
          if starts_with old s
          then new ++ replace_go fuel' old new (skipn (List.length old) s)
          else x :: replace_go fuel' old new s'
      end
  end.

Definition replace (old new s : str) : str :=
  match old with
  | [] => new ++ flat_map (fun x => x :: new) s
  | _ :: _ => replace_go (List.length s) old new s
  end.

(** [s[:n]] and [s[a:b]] for non-negative bounds. *)
Definition prefix (n : nat) (s : str) : str := firstn n s.
Definition slice (a b : nat) (s : str) : str := firstn (b - a) (skipn a s).

(** [str.isspace] on one character: the code points CPython's
    [_PyUnicode_IsWhitespace] lists. *)
Definition isspace (c : char) : bool :=
  ((9 <=? c) && (c <=? 13) || (28 <=? c) && (c <=? 32) ||
   (c =? 133) || (c =? 160) || (c =? 5760) ||
   (8192 <=? c) && (c <=? 8202) || (c =? 8232) || (c =? 8233) ||
   (c =? 8239) || (c =? 8287) || (c =? 12288))%N.

Fixpoint lstrip (s : str) : str :=
  match s with
  | [] => []
  | c :: s' => if isspace c then lstrip s' else s
  end.

Definition rstrip (s : str) : str := rev (lstrip (rev s)).

(** [s.strip()] *)
Definition strip (s : str) : str := rstrip (lstrip s).

(** [s.split()]: the maximal runs of non-whitespace characters. *)
Fixpoint split_go (s : str) (cur : str) : list str :=
  match s with
  | [] => match cur with [] => [] | _ => [rev cur] end
  | c :: s' =>
      if isspace c
      then match cur with
           | [] => split_go s' []
           | _ => rev cur :: split_go s' []
           end
      else split_go s' (c :: cur)
  end.

Definition split (s : str) : list str := split_go s [].

(** [s.split(sep)] for a one-character separator. *)
Fixpoint split_on_go (sep : char) (s : str) (cur : str) : list str :=
  match s with
  | [] => [rev cur]
  | c :: s' =>
      if (c =? sep)%N
      then rev cur :: split_on_go sep s' []
      else split_on_go sep s' (c :: cur)
  end.

Definition split_on (sep : char) (s : str) : list str := split_on_go sep s [].

(** Line boundaries of [str.splitlines]. *)
Definition is_linebreak (c : char) : bool :=
  ((10 <=? c) && (c <=? 13) || (28 <=? c) && (c <=? 30) ||
   (c =? 133) || (c =? 8232) || (c =? 8233))%N.

(** [s.splitlines()]: a carriage return directly followed by a line feed is
    one boundary; no empty last line after a final boundary. *)
Fixpoint splitlines_go (s : str) (cur : str) : list str :=
  match s with
  | [] => match cur with [] => [] | _ => [rev cur] end
  | c :: s' =>
      if is_linebreak c
      then rev cur ::
           match s' with
           | d :: s'' =>
               if ((c =? 13) && (d =? 10))%N
               then splitlines_go s'' []
               else splitlines_go s' []
           | [] => splitlines_go s' []
           end
      else splitlines_go s' (c :: cur)
  end.

Definition splitlines (s : str) : list str := splitlines_go s [].

Definition is_ascii (c : char) : bool := (c <? 128)%N.
Definition ascii_isupper (c : char) : bool := ((65 <=? c) && (c <=? 90))%N.
Definition ascii_islower (c : char) : bool := ((97 <=? c) && (c <=? 122))%N.
Definition ascii_isalpha (c : char) : bool := ascii_isupper c || ascii_islower c.
Definition ascii_isdigit (c : char) : bool := ((48 <=? c) && (c <=? 57))%N.
Definition ascii_lower (c : char) : char :=
  if ascii_isupper c then (c + 32)%N else c.
Definition ascii_upper (c : char) : char :=
  if ascii_islower c then (c - 32)%N else c.

(** The last positions of [,] and [.], as [rfind] gives them, against the
    separator that comes last. *)
Definition agree (lc lp : Z) (acc : option char) : Prop :=
  (acc = None /\ lc = (-1)%Z /\ lp = (-1)%Z) \/
  (acc = Some 44%N /\ (lp < lc)%Z) \/
  (acc = Some 46%N /\ (lc < lp)%Z).

End Str.

Abbreviation str := Str.str.
Notation "'u' s" := (Str.of_string s) (at level 9, s at level 0, format "'u' s").

(** ** The Unicode database

    What CPython answers for code points above U+007F; the answers for ASCII
    are fixed by the definitions below. *)

Class Unicode := {
  (** [Py_UNICODE_TODECIMAL]: the value of a decimal digit (category Nd) *)
  uni_decimal : Str.char -> option N;
  (** [Py_UNICODE_ISALNUM] *)
  uni_isalnum : Str.char -> bool;
  (** [str.isupper] of a one-character string *)
  uni_isupper : Str.char -> bool;
  (** [str.lower] and [str.upper] of a string that is not pure ASCII *)
  uni_lower : str -> str;
  uni_upper : str -> str;
  (** under [re.IGNORECASE], whether the non-ASCII text character [t] matches
      the ASCII pattern character [c] *)
  uni_ieq : Str.char -> Str.char -> bool
}.

(** ** Results of operations that can raise *)

Inductive exn := ValueError | IndexError | TypeError | AttributeError.

Inductive result (A : Type) :=
| Ok (a : A)
| Raise (e : exn).
Arguments Ok {A} a.
Arguments Raise {A} e.

Definition bind {A B} (r : result A) (f : A -> result B) : result B :=
  match r with
  | Ok a => f a
  | Raise e => Raise e
  end.

Notation "x <- r ;; k" := (bind r (fun x => k))
  (at level 61, r at next level, right associativity).

(** ** Floats

    A binary64 number is a whole multiple of 2^-1074: a finite float is its
    sign and that multiple, which keeps the two zeros apart. The values of
    this program come from [float] on digit strings and from [abs], so no
    NaN occurs. *)

Module Float.

Inductive float :=
| Finite (neg : bool) (mag : N)
| Infinity (neg : bool).

Definition abs (f : float) : float :=
  match f with
  | Finite _ m => Finite false m
  | Infinity _ => Infinity false
  end.

(** Position in the order of the extended reals. *)
Definition ord (f : float) : Z * Z :=
  match f with
  | Infinity true => (-1, 0)%Z
  | Finite true m => (0, - Z.of_N m)%Z
  | Finite false m => (0, Z.of_N m)%Z
  | Infinity false => (1, 0)%Z
  end.

Definition ltb (a b : float) : bool :=
  let (a1, a2) := ord a in
  let (b1, b2) := ord b in
  ((a1 <? b1) || (a1 =? b1) && (a2 <? b2))%Z.

(** Python's [==]: the two zeros are equal. *)
Definition eqb (a b : float) : bool :=
  let (a1, a2) := ord a in
  let (b1, b2) := ord b in
  ((a1 =? b1) && (a2 =? b2))%Z.

Definition leb (a b : float) : bool := ltb a b || eqb a b.

(** [a / b] rounded to the nearest whole number, ties to even. *)
Definition div_half_even (a b : N) : N :=
  let q := (a / b)%N in
  let r := (a mod b)%N in
  match (2 * r ?= b)%N with
  | Lt => q
  | Gt => (q + 1)%N
  | Eq => if N.even q then q else (q + 1)%N
  end.

(** The binary64 nearest to [n / 10^k], in units of 2^-1074: the spacing is
    one unit below 2^53 units and doubles with every further bit. *)
Definition round_decimal (neg : bool) (n : N) (k : N) : float :=
  let num := (n * 2 ^ 1074)%N in
  let den := (10 ^ k)%N in
  let bits := N.size (num / den) in
  let ulp := (2 ^ (bits - 53))%N in
  let mag := (div_half_even num (den * ulp) * ulp)%N in
  if (mag <? 2 ^ 2098)%N then Finite neg mag else Infinity neg.

(** The float with the given IEEE-754 bit pattern (sign, biased exponent,
    fraction), for finite patterns. *)
Definition of_bits (bits : N) : float :=
  let neg := N.testbit bits 63 in
  let e := (N.shiftr bits 52 mod 2048)%N in
  let f := (bits mod 2 ^ 52)%N in
  if (e =? 2047)%N then Infinity neg
  else if (e =? 0)%N then Finite neg f
  else Finite neg ((2 ^ 52 + f) * 2 ^ (e - 1))%N.

(** [3.0] *)
Definition three : float := Finite false (3 * 2 ^ 1074).

End Float.

Abbreviation float := Float.float.

(** ** Regular expressions

    The part of Python's [re] that the patterns of [extractor.py] use, as a
    backtracking matcher: alternatives are tried in order, repetitions are
    greedy, and a search returns the leftmost match. *)

Module Re.

Record state := State {
  prev : option Str.char;          (* the character before the position *)
  rest : str;                      (* the text from the position on *)
  idx : nat;                       (* the position *)
  caps : list (nat * (nat * nat))  (* spans of the groups matched so far *)
}.

Inductive regex :=
| Eps
| Chr (p : Str.char -> bool)
| Cat (r1 r2 : regex)
| Alt (r1 r2 : regex)
| Rep (r : regex) (lo : nat) (hi : option nat)
| Grp (g : nat) (r : regex)
| Bnd (word : Str.char -> bool)
| Eos.

Definition below (i : nat) (hi : option nat) : bool :=
  match hi with
  | None => true
  | Some h => Nat.ltb i h
  end.

Definition is_some {A} (o : option A) : bool :=
  match o with Some _ => true | None => false end.

Definition word_at (word : Str.char -> bool) (o : option Str.char) : bool :=
  match o with Some c => word c | None => false end.

(** The greedy loop of a repetition whose body is matched by [body]: before
    iteration [i] it tries one more iteration when the upper bound allows,
    and falls back to the continuation once the lower bound is reached. An
    iteration has to consume something, as every repeated body of the
    patterns below does. *)
Fixpoint rep_loop {A} (body : state -> (state -> option A) -> option A)
  (lo : nat) (hi : option nat) (k : state -> option A)
  (fuel i : nat) (st : state) : option A :=
  let stop := if Nat.leb lo i then k st else None in
  match fuel with
  | O => stop
  | S fuel' =>
      if below i hi
      then match body st (fun st' =>
                   if Nat.ltb (idx st) (idx st')
                   then rep_loop body lo hi k fuel' (S i) st' else None) with
           | Some a => Some a
           | None => stop
           end
      else stop
  end.

(** [m r st k]: match [r] at [st] and hand the state after it to [k]; the
    first way of matching that [k] accepts wins. *)
Fixpoint m {A} (r : regex) (st : state) (k : state -> option A) : option A :=
  match r with
  | Eps => k st
  | Chr p =>
      match rest st with
      | c :: rest' =>
          if p c then k (State (Some c) rest' (S (idx st)) (caps st)) else None
      | [] => None
      end
  | Cat r1 r2 => m r1 st (fun st' => m r2 st' k)
  | Alt r1 r2 =>
      match m r1 st k with
      | Some a => Some a
      | None => m r2 st k
      end
  | Rep r' lo hi => rep_loop (m r') lo hi k (S (List.length (rest st))) O st
  | Grp g r' =>
      m r' st (fun st' =>
        k (State (prev st') (rest st') (idx st') ((g, (idx st, idx st')) :: caps st')))
  | Bnd word =>
      if xorb (word_at word (prev st)) (word_at word (hd_error (rest st)))
      then k st else None
  | Eos =>
      match rest st with
      | [] => k st
      | [c] => if (c =? 10)%N then k st else None
      | _ => None
      end
  end.

(** A match object: its span and the spans of its groups. *)
Record match_ := Match {
  m_start : nat;
  m_end : nat;
  m_caps : list (nat * (nat * nat))
}.

Definition match_here (r : regex) (p : option Str.char) (s : str) (i : nat)
  : option state :=
  m r (State p s i []) Some.

(** Leftmost match starting at or after the position. *)
Fixpoint search_from (r : regex) (p : option Str.char) (s : str) (i : nat)
  : option (nat * state) :=
  match match_here r p s i with
  | Some st => Some (i, st)
  | None =>
      match s with
      | [] => None
      | c :: s' => search_from r (Some c) s' (S i)
      end
  end.

(** [re.search(r, s)] *)
Definition search (r : regex) (s : str) : option match_ :=
  match search_from r None s O with
  | Some (i, st) => Some (Match i (idx st) (caps st))
  | None => None
  end.

(** [re.match(r, s)] *)
Definition match_start (r : regex) (s : str) : option match_ :=
  match match_here r None s O with
  | Some st => Some (Match O (idx st) (caps st))
  | None => None
  end.

(** [r.finditer(s)]: the non-overlapping matches from left to right, each
    search starting where the last match ended. No pattern of [extractor.py]
    that is iterated can match the empty string; after an empty match this
    scan moves on by one character. *)
Fixpoint finditer_go (fuel : nat) (r : regex) (p : option Str.char) (s : str)
  (i : nat) : list match_ :=
  match fuel with
  | O => []
  | S fuel' =>
      match search_from r p s i with
      | None => []
      | Some (b, st) =>
          Match b (idx st) (caps st) ::
          (if Nat.ltb b (idx st)
           then finditer_go fuel' r (prev st) (rest st) (idx st)
           else match rest st with
                | [] => []
                | c :: s' => finditer_go fuel' r (Some c) s' (S (idx st))
                end)
      end
  end.

Definition finditer (r : regex) (s : str) : list match_ :=
  finditer_go (S (List.length s)) r None s O.

(** [m.group(0)] *)
Definition group0 (s : str) (mt : match_) : str :=
  Str.slice (m_start mt) (m_end mt) s.

Fixpoint lookup_cap (g : nat) (l : list (nat * (nat * nat)))
  : option (nat * nat) :=
  match l with
  | [] => None
  | (g', span) :: l' => if Nat.eqb g g' then Some span else lookup_cap g l'
  end.

(** [m.group(g)]: [None] when the group took no part in the match. *)
Definition group (s : str) (mt : match_) (g : nat) : option str :=
  match lookup_cap g (m_caps mt) with
  | Some (a, b) => Some (Str.slice a b s)
  | None => None
  end.

(** [re.sub(r, "", s)]: the text outside the matches. *)
Fixpoint cut (s : str) (from : nat) (ms : list match_) : str :=
  match ms with
  | [] => skipn from s
  | mt :: ms' => Str.slice from (m_start mt) s ++ cut s (m_end mt) ms'
  end.

Definition remove_all (r : regex) (s : str) : str := cut s O (finditer r s).

(** Pattern syntax. *)
Definition opt (r : regex) : regex := Rep r 0 (Some 1).
Definition star (r : regex) : regex := Rep r 0 None.
Definition plus (r : regex) : regex := Rep r 1 None.
Definition times (r : regex) (n : nat) : regex := Rep r n (Some n).
Definition between (r : regex) (lo hi : nat) : regex := Rep r lo (Some hi).
Definition at_least (r : regex) (lo : nat) : regex := Rep r lo None.

Fixpoint seq (l : list regex) : regex :=
  match l with
  | [] => Eps
  | [r] => r
  | r :: l' => Cat r (seq l')
  end.

Fixpoint alts (l : list regex) : regex :=
  match l with
  | [] => Chr (fun _ => false)
  | [r] => r
  | r :: l' => Alt r (alts l')
  end.

Definition one_of (s : str) : regex :=
  Chr (fun c => existsb (N.eqb c) s).

Definition lit (s : str) : regex := seq (map (fun c => Chr (N.eqb c)) s).

(** [.] without [re.DOTALL] *)
Definition dot : regex := Chr (fun c => negb (c =? 10)%N).

(** Whether group [g] has a span among the captures. *)
Definition has (g : nat) (c : list (nat * (nat * nat))) : bool :=
  is_some (lookup_cap g c).

(** A sufficient condition, read off the pattern, for group [g] to take part
    in every match. *)
Fixpoint always_caps (g : nat) (r : regex) : bool :=
  match r with
  | Grp g' r' => Nat.eqb g g' || always_caps g r'
  | Cat r1 r2 => always_caps g r1 || always_caps g r2
  | Alt r1 r2 => always_caps g r1 && always_caps g r2
  | Rep r' lo _ => Nat.ltb 0 lo && always_caps g r'
  | _ => false
  end.

(** From [st] to [st'] the group [g] stays captured, and is captured at
    [st'] when [must] holds. *)
Definition keeps (g : nat) (must : bool) (st st' : state) : Prop :=
  (has g (caps st) = true -> has g (caps st') = true) /\
  (must = true -> has g (caps st') = true).

End Re.

(** ** Data of the extractor *)

(** A [datetime] as [dateparser.parse] returns it for a bare date. *)
Record datetime := Datetime {
  year : N; month : N; day : N;
  hour : N; minute : N; second : N; microsecond : N
}.

(** The [DATE_ORDER] setting of the two calls. *)
Inductive date_order := DMY | MDY.

(** The value under ["label"]: ["subtotal"], ["tax"], ["total_due"]; [None]
    is Python's [None]. *)
Inductive label := Subtotal | Tax | TotalDue.

(** The dict [find_amounts_with_context] appends to [found]. *)
Record candidate := Candidate {
  c_amount : float;
  c_currency : option str;
  c_raw : str;
  c_context : str;
  c_line : str;
  c_label : option label
}.

(** The dict [parse_dates_and_labels] returns. *)
Record date_labels := DateLabels {
  issue_date : option str;
  due_date : option str;
  delivery_date : option str;
  other_dates : list (option str)
}.

(** The dict [find_totals] returns. *)
Record totals := Totals {
  subtotal : option float;
  tax : option float;
  total_due : option float
}.

(** The dict [extract_fields] appends to [items]. *)
Record item := Item {
  i_amount : float;
  i_currency : option str;
  i_raw : str;
  i_description : option str;
  i_label : option label;
  i_context : str
}.

(** The values of the dict [extract_fields] returns, and the dict itself,
    keys in insertion order. *)
Inductive field :=
| FStr (s : option str)
| FDates (d : date_labels)
| FItems (l : list item)
| FTotals (t : totals).

Definition pydict := list (string * field).

Fixpoint dict_get (k : string) (d : pydict) : option field :=
  match d with
  | [] => None
  | (k', v) :: d' => if String.eqb k k' then Some v else dict_get k d'
  end.

Definition dict_keys (d : pydict) : list string := map fst d.

(** ** Generic list operations of the Python code *)

(** A loop whose body either skips its element or appends one value and that
    stops at the first exception. *)
Fixpoint collect {A B} (f : A -> result (option B)) (l : list A)
  : result (list B) :=
  match l with
  | [] => Ok []
  | x :: l' =>
      o <- f x;;
      r <- collect f l';;
      Ok (match o with Some b => b :: r | None => r end)
  end.

(** [enumerate(l)] *)
Definition enumerate {A} (l : list A) : list (nat * A) :=
  combine (seq 0 (List.length l)) l.

(** Stable sorting, as [list.sort] and [sorted] do: [le x y] says that [x]
    may stay before [y]. *)
Fixpoint insert_by {A} (le : A -> A -> bool) (x : A) (l : list A) : list A :=
  match l with
  | [] => [x]
  | y :: l' => if le x y then x :: l else y :: insert_by le x l'
  end.

Fixpoint sort_by {A} (le : A -> A -> bool) (l : list A) : list A :=
  match l with
  | [] => []
  | x :: l' => insert_by le x (sort_by le l')
  end.

(** A loop that keeps the first element of every key, the keys seen so far
    held in a set. *)
Fixpoint dedup_go {A K} (eqk : K -> K -> bool) (key : A -> K) (l : list A)
  (keys : list K) : list A :=
  match l with
  | [] => []
  | x :: l' =>
      if existsb (eqk (key x)) keys
      then dedup_go eqk key l' keys
      else x :: dedup_go eqk key l' (key x :: keys)
  end.

Definition dedup_by {A K} (eqk : K -> K -> bool) (key : A -> K) (l : list A)
  : list A :=
  dedup_go eqk key l [].

Definition option_eqb {A} (eqa : A -> A -> bool) (a b : option A) : bool :=
  match a, b with
  | Some x, Some y => eqa x y
  | None, None => true
  | _, _ => false
  end.

(** [x or ""] *)
Definition or_empty (o : option str) : str :=
  match o with Some s => s | None => [] end.

(** Truth value of an optional string. *)
Definition truthy (o : option str) : bool :=
  match o with Some (_ :: _) => true | _ => false end.

(** ** The functions of [extractor.py] *)

Section Extractor.

Context {U : Unicode}.

(** [dateparser.parse(raw, settings={"PREFER_DAY_OF_MONTH": "first",
    "DATE_ORDER": order})]: [None] when the text is not a date. *)
Variable dateparser_parse : date_order -> str -> option datetime.

(** *** Character classes and case *)

Definition decimal_value (c : Str.char) : option N :=
  if Str.is_ascii c
  then if Str.ascii_isdigit c then Some (c - 48)%N else None
  else uni_decimal c.

(** [\d] *)
Definition is_digit (c : Str.char) : bool := Re.is_some (decimal_value c).

(** [\w] *)
Definition is_word (c : Str.char) : bool :=
  if Str.is_ascii c
  then Str.ascii_isalpha c || Str.ascii_isdigit c || (c =? 95)%N
  else uni_isalnum c.

Definition lower (s : str) : str :=
  if forallb Str.is_ascii s then map Str.ascii_lower s else uni_lower s.

Definition upper (s : str) : str :=
  if forallb Str.is_ascii s then map Str.ascii_upper s else uni_upper s.

Definition isupper (c : Str.char) : bool :=
  if Str.is_ascii c then Str.ascii_isupper c else uni_isupper c.

(** Whether the text character [t] matches the pattern character [c] under
    [re.IGNORECASE]. *)
Definition ieq (c t : Str.char) : bool :=
  if Str.ascii_isalpha c
  then if Str.is_ascii t
       then (Str.ascii_lower t =? Str.ascii_lower c)%N
       else uni_ieq c t
  else (t =? c)%N.

Definition digit : Re.regex := Re.Chr is_digit.
Definition blank : Re.regex := Re.Chr Str.isspace.
Definition wordb : Re.regex := Re.Bnd is_word.
Definition ilit (s : str) : Re.regex := Re.seq (map (fun c => Re.Chr (ieq c)) s).
Definition letter : Re.regex := Re.Chr Str.ascii_isalpha.

(** *** Patterns *)

(** [[$€£₹¥]] *)
Definition CURRENCY_SYMS : Re.regex := Re.one_of [36; 8364; 163; 8377; 165]%N.

Definition currency_names : list str :=
  [u"USD"; u"EUR"; u"INR"; u"GBP"; u"AUD"; u"CAD"; u"JPY"].

(** [\b(?:USD|EUR|INR|GBP|AUD|CAD|JPY)\b], matched ignoring case where it
    is used *)
Definition CURRENCY_CODES : Re.regex :=
  Re.seq [wordb; Re.alts (map ilit currency_names); wordb].

(** Groups of [AMOUNT_RE]: 1 [sign], 2 [sym], 3 [amt], 4 [code]. *)
Definition AMOUNT_RE : Re.regex :=
  Re.seq
    [Re.opt (Re.Grp 1 (Re.one_of [45; 8722]%N));
     Re.star blank;
     Re.opt (Re.Grp 2 CURRENCY_SYMS);
     Re.star blank;
     Re.Grp 3
       (Re.Alt
          (Re.Cat (Re.between digit 1 3)
             (Re.star
                (Re.Cat
                   (Re.Chr (fun c => (c =? 44)%N || (c =? 46)%N || Str.isspace c))
                   (Re.times digit 3))))
          (Re.Cat (Re.plus digit)
             (Re.opt (Re.Cat (Re.one_of (u".,")) (Re.plus digit)))));
     Re.star blank;
     Re.opt (Re.Grp 4 CURRENCY_CODES)].

Definition DATE_RE : Re.regex :=
  let sep := Re.one_of (u"/-") in
  Re.seq
    [wordb;
     Re.alts
       [Re.seq [Re.between digit 1 2; sep; Re.between digit 1 2; sep;
                Re.between digit 2 4];
        Re.seq [Re.times digit 4; sep; Re.between digit 1 2; sep;
                Re.between digit 1 2];
        Re.seq [Re.between letter 3 9; Re.plus blank; Re.between digit 1 2;
                Re.lit (u","); Re.star blank; Re.times digit 4]];
     wordb].

(** [[A-Z0-9\-\_/]] under [re.IGNORECASE] *)
Definition invoice_char (t : Str.char) : bool :=
  if Str.is_ascii t
  then Str.ascii_isalpha t || Str.ascii_isdigit t ||
       (t =? 45)%N || (t =? 95)%N || (t =? 47)%N
  else existsb (fun c => uni_ieq c t) (u"ABCDEFGHIJKLMNOPQRSTUVWXYZ").

Definition INVOICE_RE : Re.regex :=
  Re.seq
    [wordb;
     Re.alts (map ilit [u"Invoice"; u"Invoice #"; u"Invoice No"; u"Inv"; u"INV"]);
     Re.star (Re.Chr (fun c => Str.isspace c || (c =? 58)%N));
     Re.Grp 1 (Re.plus (Re.Chr invoice_char))].

Definition PHONE_RE : Re.regex :=
  Re.seq
    [Re.opt (Re.lit (u"+"));
     digit;
     Re.at_least
       (Re.Chr (fun c => is_digit c || Str.isspace c ||
                         (c =? 45)%N || (c =? 40)%N || (c =? 41)%N)) 6;
     digit].

(** [,\d{3}\b] *)
Definition comma_triple : Re.regex :=
  Re.seq [Re.lit (u","); Re.times digit 3; wordb].

(** [[,\.]\d{2}\b] *)
Definition two_decimals : Re.regex :=
  Re.seq [Re.one_of (u",."); Re.times digit 2; wordb].

(** [\b(USD|EUR|INR|GBP|AUD|CAD|JPY)\b] with [re.IGNORECASE] *)
Definition currency_word : Re.regex :=
  Re.seq [wordb; Re.Grp 1 (Re.alts (map ilit currency_names)); wordb].

(** [\d{4}-\d{1,2}-\d{1,2}] *)
Definition iso_shape : Re.regex :=
  Re.seq [Re.times digit 4; Re.lit (u"-"); Re.between digit 1 2; Re.lit (u"-");
          Re.between digit 1 2].

(** The company words of [extract_vendor], with [re.IGNORECASE]. *)
Definition company_word : Re.regex :=
  Re.seq
    [wordb;
     Re.Grp 1
       (Re.alts
          (map ilit
             [u"Ltd"; u"Ltd."; u"Solutions"; u"Inc"; u"Inc."; u"Co.";
              u"Corporation"; u"LLP"; u"LLC"; u"GLOBAL"; u"CORP"; u"SOLUTIONS"]));
     wordb].

(** [\s*\|.*$] *)
Definition pipe_tail : Re.regex :=
  Re.seq [Re.star blank; Re.lit (u"|"); Re.star Re.dot; Re.Eos].

(** [Phone[:\s]*\+?\d[0-9\-\s\(\)]*] *)
Definition phone_part : Re.regex :=
  Re.seq
    [Re.lit (u"Phone");
     Re.star (Re.Chr (fun c => (c =? 58)%N || Str.isspace c));
     Re.opt (Re.lit (u"+"));
     digit;
     Re.star
       (Re.Chr (fun c => Str.ascii_isdigit c || (c =? 45)%N || Str.isspace c ||
                         (c =? 40)%N || (c =? 41)%N))].

(** [\b(INV[-\d/]+)\b] with [re.IGNORECASE] *)
Definition inv_word : Re.regex :=
  Re.seq
    [wordb;
     Re.Grp 1
       (Re.Cat (ilit (u"INV"))
          (Re.plus (Re.Chr (fun c => (c =? 45)%N || is_digit c || (c =? 47)%N))));
     wordb].

(** [([A-Za-z].{0,60})] *)
Definition alpha_run : Re.regex :=
  Re.Grp 1 (Re.Cat letter (Re.between Re.dot 0 60)).

(** *** Numbers *)

Fixpoint read_digits (s : str) (acc : N) (n : N) : N * N * str :=
  match s with
  | c :: s' =>
      match decimal_value c with
      | Some v => read_digits s' (10 * acc + v)%N (n + 1)%N
      | None => (acc, n, s)
      end
  | [] => (acc, n, [])
  end.

(** [float(s)] for a string of digits, ['.'] and ['-'], the characters that
    [parse_amount_text] leaves: an optional minus sign, then digits with at
    most one point and at least one digit; the value is rounded to the
    nearest binary64. *)
Definition py_float (s : str) : result float :=
  let '(neg, s1) :=
    match s with
    | c :: t => if (c =? 45)%N then (true, t) else (false, s)
    | [] => (false, s)
    end in
  let '(v1, n1, s2) := read_digits s1 0 0 in
  match s2 with
  | [] => if (n1 =? 0)%N then Raise ValueError
          else Ok (Float.round_decimal neg v1 0)
  | c :: t =>
      if (c =? 46)%N
      then let '(v2, n2, s3) := read_digits t v1 0 in
           match s3 with
           | [] => if (n1 + n2 =? 0)%N then Raise ValueError
                   else Ok (Float.round_decimal neg v2 n2)
           | _ :: _ => Raise ValueError
           end
      else Raise ValueError
  end.

(** [int(s)] for a string without sign, blanks or underscores. (CPython's
    limit on the length of the string starts at 4300 digits; a date span has
    at most four digits in a row.) *)
Definition py_int (s : str) : result N :=
  let '(v, n, s') := read_digits s 0 0 in
  match s' with
  | [] => if (n =? 0)%N then Raise ValueError else Ok v
  | _ :: _ => Raise ValueError
  end.

(** [re.findall(r"\d+", s)]: the maximal runs of digits. *)
Fixpoint digit_runs_go (s : str) (cur : str) : list str :=
  match s with
  | [] => match cur with [] => [] | _ => [rev cur] end
  | c :: s' =>
      if is_digit c then digit_runs_go s' (c :: cur)
      else match cur with
           | [] => digit_runs_go s' []
           | _ => rev cur :: digit_runs_go s' []
           end
  end.

Definition digit_runs (s : str) : list str := digit_runs_go s [].

(** [re.sub(r"\D", "", s)] *)
Definition digits_of (s : str) : str := filter is_digit s.

Definition parse_amount_text (amt_text : str) : option float :=
  match amt_text with
  | [] => None
  | _ :: _ =>
      let s := Str.replace (u" ") [] (Str.replace [160%N] [] amt_text) in
      let s :=
        if Str.contains (u",") s && Str.contains (u".") s
        then if (Str.rfind 44%N s <? Str.rfind 46%N s)%Z
             then Str.replace (u",") [] s
             else Str.replace (u",") (u".") (Str.replace (u".") [] s)
        else if Str.contains (u",") s && Re.is_some (Re.search comma_triple s)
             then Str.replace (u",") [] s
             else Str.replace (u",") (u".") s in
      let s := filter (fun c => is_digit c || (c =? 46)%N || (c =? 45)%N) s in
      match py_float s with
      | Ok f => Some f
      | Raise _ => None
      end
  end.

Definition symbol_currency (sym : str) : option str :=
  if Str.eqb sym [36%N] then Some (u"USD")
  else if Str.eqb sym [8364%N] then Some (u"EUR")
  else if Str.eqb sym [163%N] then Some (u"GBP")
  else if Str.eqb sym [8377%N] then Some (u"INR")
  else if Str.eqb sym [165%N] then Some (u"JPY")
  else None.

Definition detect_currency (sym code : option str) (raw : str)
  : result (option str) :=
  if truthy code then Ok (Some (upper (or_empty code)))
  else if truthy sym then Ok (symbol_currency (or_empty sym))
  else match Re.search currency_word raw with
       | Some mt =>
           match Re.group raw mt 1 with
           | Some g => Ok (Some (upper g))
           | None => Raise AttributeError
           end
       | None => Ok None
       end.

(** *** Amount candidates *)

Definition text_to_lines (text : str) : list str :=
  filter (fun ln => negb (Str.eqb ln []))
    (map Str.strip (Str.splitlines text)).

(** [l[i]] for a non-negative index *)
Definition index {A} (l : list A) (i : nat) : result A :=
  match nth_error l i with
  | Some x => Ok x
  | None => Raise IndexError
  end.

Definition guess_label (ln : str) : option label :=
  let low := lower ln in
  if Str.contains (u"subtotal") low then Some Subtotal
  else if Str.contains (u"tax") low then Some Tax
  else if Str.contains (u"total") low && Str.contains (u"due") low
       then Some TotalDue
       else None.

(** The body of the inner loop of [find_amounts_with_context]: [None] where
    the source says [continue]. *)
Definition scan_match (lines : list str) (i : nat) (ln : str)
  (mt : Re.match_) : result (option candidate) :=
  let raw := Re.group0 ln mt in
  let amt_text := Re.group ln mt 3 in
  let sign := or_empty (Re.group ln mt 1) in
  let sym := Re.group ln mt 2 in
  let code := Re.group ln mt 4 in
  if negb (truthy sym) && negb (truthy code) &&
     Nat.ltb 10 (List.length (digits_of raw)) &&
     negb (Re.is_some (Re.search two_decimals raw))
  then Ok None
  else
    match amt_text with
    | None => Raise TypeError
    | Some amt =>
        match parse_amount_text (sign ++ amt) with
        | None => Ok None
        | Some value =>
            currency <- detect_currency sym code raw;;
            context <-
              (if Nat.ltb 0 i
               then before <- index lines (i - 1);;
                    Ok (if negb (Re.is_some (Re.search AMOUNT_RE before))
                        then before ++ u" | " ++ ln
                        else ln)
               else Ok ln);;
            let label := guess_label ln in
            if Float.ltb (Float.abs value) Float.three &&
               negb (Re.is_some label) && negb (Re.is_some currency)
            then Ok None
            else Ok (Some (Candidate value currency (Str.strip raw)
                             (Str.strip context) ln label))
        end
    end.

(** A loop over a loop, both appending to one list. *)
Fixpoint collect_all {A B} (f : A -> result (list B)) (l : list A)
  : result (list B) :=
  match l with
  | [] => Ok []
  | x :: l' =>
      r <- f x;;
      r' <- collect_all f l';;
      Ok (r ++ r')
  end.

Definition scan (text : str) : result (list candidate) :=
  let lines := text_to_lines text in
  collect_all
    (fun p => collect (scan_match lines (fst p) (snd p))
                (Re.finditer AMOUNT_RE (snd p)))
    (enumerate lines).

(** The deduplication key [(amount, currency, raw, context[:60])] and the
    equality of two keys. *)
Definition candidate_key (f : candidate) : float * option str * str * str :=
  (c_amount f, c_currency f, c_raw f, Str.prefix 60 (c_context f)).

Definition candidate_key_eqb (k1 k2 : float * option str * str * str) : bool :=
  let '(a1, c1, r1, x1) := k1 in
  let '(a2, c2, r2, x2) := k2 in
  Float.eqb a1 a2 && option_eqb Str.eqb c1 c2 && Str.eqb r1 r2 && Str.eqb x1 x2.

Definition score_item (it : candidate) : Z :=
  let s := 0%Z in
  let s := match c_label it with Some Subtotal => (s - 100)%Z | _ => s end in
  let s := match c_label it with Some Tax => (s - 90)%Z | _ => s end in
  let s := match c_label it with Some TotalDue => (s - 110)%Z | _ => s end in
  s.

Definition by_score (x y : candidate) : bool :=
  (score_item x <=? score_item y)%Z.

Definition find_amounts_with_context (text : str) : result (list candidate) :=
  found <- scan text;;
  let dedup := dedup_by candidate_key_eqb candidate_key found in
  Ok (sort_by by_score dedup).

(** *** Dates *)

Definition datetime_eqb (a b : datetime) : bool :=
  ((year a =? year b) && (month a =? month b) && (day a =? day b) &&
   (hour a =? hour b) && (minute a =? minute b) && (second a =? second b) &&
   (microsecond a =? microsecond b))%N.

Fixpoint decimal_go (fuel : nat) (n : N) (acc : str) : str :=
  match fuel with
  | O => acc
  | S fuel' =>
      if (n <? 10)%N then (48 + n)%N :: acc
      else decimal_go fuel' (n / 10)%N ((48 + n mod 10)%N :: acc)
  end.

(** ["%0wd" % n] *)
Definition zero_padded (w : nat) (n : N) : str :=
  let s := decimal_go (S (N.to_nat (N.log2 n))) n [] in
  repeat 48%N (w - List.length s) ++ s.

(** [dt.date().isoformat()] *)
Definition isoformat (dt : datetime) : str :=
  zero_padded 4 (year dt) ++ u"-" ++ zero_padded 2 (month dt) ++ u"-" ++
  zero_padded 2 (day dt).

(** The choice between the two parses of one span. *)
Definition choose (raw : str) : result (option datetime) :=
  let dt1 := dateparser_parse DMY raw in
  let dt2 := dateparser_parse MDY raw in
  match dt1, dt2 with
  | Some a, None => Ok (Some a)
  | None, Some c => Ok (Some c)
  | Some a, Some c =>
      if datetime_eqb a c then Ok (Some a)
      else if Re.is_some (Re.match_start iso_shape raw) then Ok (Some a)
      else match digit_runs raw with
           | [] => Ok (Some a)
           | p :: _ =>
               n <- py_int p;;
               if (12 <? n)%N then Ok (Some a) else Ok (Some a)
           end
  | None, None => Ok None
  end.

(** The label slot that the window around a match selects. *)
Inductive slot := Issue | Due | Delivery | Other.

Definition window_slot (window : str) : slot :=
  if Str.contains (u"issue") window || Str.contains (u"issued") window
  then Issue
  else if Str.contains (u"due") window then Due
  else if Str.contains (u"delivery") window || Str.contains (u"deliv") window
       then Delivery
       else Other.

Definition window_of (text : str) (mt : Re.match_) : str :=
  let span_start := Re.m_start mt - 40 in
  let span_end := Nat.min (Re.m_end mt + 40) (List.length text) in
  lower (Str.slice span_start span_end text).

Definition assign (labels : date_labels) (sl : slot) (iso : option str)
  : date_labels :=
  match sl with
  | Issue => DateLabels iso (due_date labels) (delivery_date labels)
               (other_dates labels)
  | Due => DateLabels (issue_date labels) iso (delivery_date labels)
             (other_dates labels)
  | Delivery => DateLabels (issue_date labels) (due_date labels) iso
                  (other_dates labels)
  | Other => DateLabels (issue_date labels) (due_date labels)
               (delivery_date labels) (other_dates labels ++ [iso])
  end.

(** The loop of [parse_dates_and_labels] over the matches that are left. *)
Fixpoint dates_loop (text : str) (ms : list Re.match_) (labels : date_labels)
  : result date_labels :=
  match ms with
  | [] => Ok labels
  | mt :: ms' =>
      chosen <- choose (Re.group0 text mt);;
      let iso := option_map isoformat chosen in
      dates_loop text ms' (assign labels (window_slot (window_of text mt)) iso)
  end.

Definition parse_dates_and_labels (text : str) : result date_labels :=
  dates_loop text (Re.finditer DATE_RE text) (DateLabels None None None []).

(** *** Vendor and invoice number *)

Definition capitalized (w : str) : bool :=
  match w with
  | c :: _ => isupper c
  | [] => false
  end.

Definition extract_vendor (text : str) : option str :=
  let lines := filter (fun ln => negb (Str.eqb ln []))
                 (map Str.strip (Str.splitlines text)) in
  let top := firstn 8 lines in
  match find (fun ln => Re.is_some (Re.search company_word ln)) top with
  | Some ln =>
      let candidate := Str.strip (Re.remove_all pipe_tail ln) in
      let candidate := Str.strip (Re.remove_all phone_part candidate) in
      Some candidate
  | None =>
      find (fun ln =>
              Nat.leb 2 (List.length (filter capitalized (Str.split ln))) &&
              Nat.ltb (List.length ln) 60)
        top
  end.

Definition extract_invoice_number (text : str) : result (option str) :=
  match Re.search INVOICE_RE text with
  | Some mt =>
      match Re.group text mt 1 with
      | Some g => Ok (Some (Str.strip g))
      | None => Raise AttributeError
      end
  | None =>
      match Re.search inv_word text with
      | Some m2 => Ok (Re.group text m2 1)
      | None => Ok None
      end
  end.

(** *** Totals *)

(** The first loop of [find_totals]. *)
Fixpoint label_totals (amounts : list candidate) (t : totals) : totals :=
  match amounts with
  | [] => t
  | a :: amounts' =>
      label_totals amounts'
        match c_label a with
        | Some Subtotal => Totals (Some (c_amount a)) (tax t) (total_due t)
        | Some Tax => Totals (subtotal t) (Some (c_amount a)) (total_due t)
        | Some TotalDue => Totals (subtotal t) (tax t) (Some (c_amount a))
        | None => t
        end
  end.

(** [key=lambda x: abs(x["amount"]), reverse=True] *)
Definition by_magnitude (x y : candidate) : bool :=
  Float.leb (Float.abs (c_amount y)) (Float.abs (c_amount x)).

Definition find_totals (amounts : list candidate) : result totals :=
  let t := label_totals amounts (Totals None None None) in
  match total_due t, amounts with
  | None, _ :: _ =>
      let by_amount := sort_by by_magnitude amounts in
      first <- index by_amount 0;;
      Ok (Totals (subtotal t) (tax t) (Some (c_amount first)))
  | _, _ => Ok t
  end.

(** *** The whole extraction *)

(** The test of the post-filter loop: [false] where the source says
    [continue]. *)
Definition keep_amount (a : candidate) : bool :=
  let raw := c_raw a in
  if Re.is_some (Re.search PHONE_RE raw) && negb (Re.is_some (c_currency a))
  then false
  else if Nat.ltb 12 (List.length (digits_of raw)) &&
          negb (Re.is_some (c_currency a))
       then false
       else true.

Definition has_letter (s : str) : bool := existsb Str.ascii_isalpha s.

(** The description of one amount. *)
Definition describe (a : candidate) : result (option str) :=
  let line_no_raw := Str.strip (Str.replace (c_raw a) [] (c_line a)) in
  if has_letter line_no_raw then Ok (Some line_no_raw)
  else
    let ctx := c_context a in
    let desc :=
      if Str.contains (u"|") ctx
      then find has_letter
             (filter (fun p => negb (Str.eqb p []))
                (map Str.strip (Str.split_on 124%N ctx)))
      else None in
    if truthy desc then Ok desc
    else match Re.search alpha_run ctx with
         | Some mt =>
             match Re.group ctx mt 1 with
             | Some g => Ok (Some (Str.strip g))
             | None => Raise AttributeError
             end
         | None => Ok desc
         end.

Definition make_item (a : candidate) : result (option item) :=
  desc <- describe a;;
  Ok (Some (Item (c_amount a) (c_currency a) (c_raw a) desc (c_label a)
              (c_context a))).

Definition item_key (it : item) : float * str :=
  (i_amount it, lower (or_empty (i_description it))).

Definition item_key_eqb (k1 k2 : float * str) : bool :=
  Float.eqb (fst k1) (fst k2) && Str.eqb (snd k1) (snd k2).

Definition extract_fields (text : str) : result pydict :=
  let text := Str.strip text in
  match text with
  | [] => Ok []
  | _ :: _ =>
      let vendor := extract_vendor text in
      invoice <- extract_invoice_number text;;
      dates <- parse_dates_and_labels text;;
      amounts <- find_amounts_with_context text;;
      let clean_amounts := filter keep_amount amounts in
      totals <- find_totals clean_amounts;;
      items <- collect make_item clean_amounts;;
      let final_items := dedup_by item_key_eqb item_key items in
      Ok [("vendor"%string, FStr vendor);
          ("invoice"%string, FStr invoice);
          ("dates"%string, FDates dates);
          ("amounts"%string, FItems final_items);
          ("totals"%string, FTotals totals)]
  end.

End Extractor.

(** ** The normalisation of an amount token, as the specification words it *)

Section AmountSpec.

Context {U : Unicode}.

Definition is_separator (c : Str.char) : bool := ((c =? 44) || (c =? 46))%N.

(** The separator that appears last in the token. *)
Definition last_separator (s : str) : option Str.char :=
  fold_left (fun acc c => if is_separator c then Some c else acc) s None.

Definition strip_char (c : Str.char) (s : str) : str :=
  filter (fun x => negb (x =? c)%N) s.

Definition subst_char (c c' : Str.char) (s : str) : str :=
  map (fun x => if (x =? c)%N then c' else x) s.

Definition occurs (c : Str.char) (s : str) : bool := existsb (N.eqb c) s.

(** Both [,] and [.] occur: the one that appears last is the decimal point
    and the other is stripped. Only [,] occurs: stripped when the token has
    [,ddd] at a word boundary, else replaced with [.]. *)
Definition normalize_spec (s : str) : str :=
  if occurs 44%N s && occurs 46%N s
  then match last_separator s with
       | Some 46%N => strip_char 44%N s
       | _ => subst_char 44%N 46%N (strip_char 46%N s)
       end
  else if occurs 44%N s
       then if Re.is_some (Re.search comma_triple s)
            then strip_char 44%N s
            else subst_char 44%N 46%N s
       else s.

(** The rule as the specification words it, on the token as it is: the
    normalisation, then the characters that are no digit, [.] or [-] are
    stripped and the rest is converted; a failed conversion gives [None]. *)
Definition parse_amount_worded (amt_text : str) : option float :=
  let digits :=
    filter (fun c => is_digit c || (c =? 46)%N || (c =? 45)%N)
      (normalize_spec amt_text) in
  match py_float digits with
  | Ok f => Some f
  | Raise _ => None
  end.

(** The rule as amended: every blank (U+0020) and no-break space (U+00A0)
    is taken out of the token first, and the normalisation looks at what is
    left, so that a group of digits after a blank counts as following the
    digits before it. *)
Definition parse_amount_amended (amt_text : str) : option float :=
  match amt_text with
  | [] => None
  | _ :: _ =>
      let token := strip_char 32%N (strip_char 160%N amt_text) in
      let digits :=
        filter (fun c => is_digit c || (c =? 46)%N || (c =? 45)%N)
          (normalize_spec token) in
      match py_float digits with
      | Ok f => Some f
      | Raise _ => None
      end
  end.

End AmountSpec.

(** ** Vocabulary of the statements *)

Definition label_eqb (a b : label) : bool :=
  match a, b with
  | Subtotal, Subtotal | Tax, Tax | TotalDue, TotalDue => true
  | _, _ => false
  end.

Definition has_label (o : option label) (c : candidate) : bool :=
  option_eqb label_eqb (c_label c) o.

(** The candidate with the given label that occurs last in the list. *)
Definition last_labelled (l : label) (amounts : list candidate)
  : option candidate :=
  find (has_label (Some l)) (rev amounts).

Definition slot_eqb (a b : slot) : bool :=
  match a, b with
  | Issue, Issue | Due, Due | Delivery, Delivery | Other, Other => true
  | _, _ => false
  end.

(** Among the (slot, date) pairs of the matches in scan order, the date of
    the first and of the last pair for a slot. *)
Definition first_for (sl : slot) (l : list (slot * option str)) : option str :=
  match find (fun p => slot_eqb (fst p) sl) l with
  | Some p => snd p
  | None => None
  end.

Definition last_for (sl : slot) (l : list (slot * option str)) : option str :=
  first_for sl (rev l).

Definition all_for (sl : slot) (l : list (slot * option str))
  : list (option str) :=
  map snd (filter (fun p => slot_eqb (fst p) sl) l).

(** A dict with every key of the record that [extract_fields] documents. *)
Definition record_keys : list string :=
  ["vendor"; "invoice"; "dates"; "amounts"; "totals"]%string.

Definition structurally_complete (d : pydict) : Prop :=
  forall k, In k record_keys -> dict_get k d <> None.

(** The line items and the totals of a result. *)
Definition items_of (d : pydict) : list item :=
  match dict_get "amounts" d with
  | Some (FItems l) => l
  | _ => []
  end.

Definition totals_of (d : pydict) : totals :=
  match dict_get "totals" d with
  | Some (FTotals t) => t
  | _ => Totals None None None
  end.

(** The parse that [parse_dates_and_labels] keeps for a span: the day-first
    one when there is one, else the month-first one. *)
Definition resolve (parse : date_order -> str -> option datetime) (raw : str)
  : option datetime :=
  match parse DMY raw with
  | Some a => Some a
  | None => parse MDY raw
  end.

(** The slot and the date of every date match, in scan order. *)
Definition assignments {U : Unicode}
  (parse : date_order -> str -> option datetime) (text : str)
  : list (slot * option str) :=
  map (fun mt => (window_slot (window_of text mt),
                  option_map isoformat (resolve parse (Re.group0 text mt))))
    (Re.finditer DATE_RE text).

(** What the magnitude filter lets through: at least 3.0 in absolute value,
    or labelled, or with a currency. *)
Definition plausible (amount : float) (l : option label) (cur : option str)
  : Prop :=
  Float.leb Float.three (Float.abs amount) = true \/ l <> None \/ cur <> None.

(** The rank that the specification gives the labels in the output order,
    and the rank by which the code sorts. *)
Definition spec_rank (c : candidate) : nat :=
  match c_label c with
  | Some TotalDue => 0
  | Some Tax => 1
  | Some Subtotal => 2
  | None => 3
  end.

Fixpoint nondecreasing (l : list nat) : bool :=
  match l with
  | a :: (b :: _) as l' => Nat.leb a b && nondecreasing l'
  | _ => true
  end.

(** ** Closed instances for examples

    Tables that know no cased letter, digit or alphanumeric character beyond
    ASCII, and a parser of purely numeric dates that reads the two numbers
    beside the year in the order of the setting: day then month under DMY,
    month then day under MDY, also when the year comes first. So
    ["01/02/2025"] is the first of February under DMY and the second of
    January under MDY, and ["2025-12-01"] is the twelfth of January under
    DMY and the first of December under MDY, as [dateparser] reads these
    spans of the examples below. *)

Definition ascii_tables : Unicode := {|
  uni_decimal := fun _ => None;
  uni_isalnum := fun _ => false;
  uni_isupper := fun _ => false;
  uni_lower := fun s => s;
  uni_upper := fun s => s;
  uni_ieq := fun _ _ => false
|}.

Definition numeric_dates (order : date_order) (raw : str) : option datetime :=
  match map (@py_int ascii_tables) (@digit_runs ascii_tables raw) with
  | [Ok a; Ok c; Ok e] =>
      let '(y, mo, dy) :=
        if (31 <? a)%N
        then match order with
             | DMY => (a, e, c)
             | MDY => (a, c, e)
             end
        else match order with
             | DMY => (e, c, a)
             | MDY => (e, a, c)
             end in
      if ((1 <=? mo) && (mo <=? 12) && (1 <=? dy) && (dy <=? 31))%N
      then Some (Datetime y mo dy 0 0 0 0)
      else None
  | _ => None
  end.

(** Texts of the examples. *)
Definition blank_text : str := [32; 9; 10]%N.
Definition fee_text : str := u"Fee $25" ++ [10%N] ++ u"Other $40".
Definition fee_amounts : list candidate :=
  [Candidate (Float.of_bits 0x4039000000000000) (Some (u"USD")) (u"$25")
     (u"Fee $25") (u"Fee $25") None;
   Candidate (Float.of_bits 0x4044000000000000) (Some (u"USD")) (u"$40")
     (u"Other $40") (u"Other $40") None].
Definition quantity_text : str := u"Qty 2 Fee $25".
Definition tax_first_text : str := u"Tax: $15" ++ [10%N] ++ u"Subtotal: $100".
Definition two_issues_text : str := u"Issue 01/02/2025 issue 03/04/2025".

(** ** Vocabulary of the further properties *)

(** No two elements of the list have equal keys. *)
Definition distinct_keys {A K} (eqk : K -> K -> bool) (key : A -> K)
  (l : list A) : Prop :=
  ForallOrdPairs (fun y z => eqk (key y) (key z) = false) l.

(** Some element of the list has a key equal to that of [x]. *)
Definition represented {A K} (eqk : K -> K -> bool) (key : A -> K)
  (x : A) (l : list A) : Prop :=
  exists y, In y l /\ eqk (key x) (key y) = true.

(** [sub in s], as a proposition; [s.endswith(sub)]. *)
Definition occurs_in (sub s : str) : Prop :=
  exists before after, s = before ++ sub ++ after.

Definition ends_with (sub s : str) : Prop :=
  exists before, s = before ++ sub.

(** The rank by which [score_item] orders the labels. *)
Definition label_rank (l : option label) : nat :=
  match l with
  | Some TotalDue => 0
  | Some Subtotal => 1
  | Some Tax => 2
  | None => 3
  end.

(** A sufficient condition, read off the pattern, for every match to
    consume a character of the class [p]. *)
Fixpoint needs (p : Str.char -> bool) (r : Re.regex) : Prop :=
  match r with
  | Re.Chr q => forall c, q c = true -> p c = true
  | Re.Cat r1 r2 => needs p r1 \/ needs p r2
  | Re.Alt r1 r2 => needs p r1 /\ needs p r2
  | Re.Rep r' lo _ => 0 < lo /\ needs p r'
  | Re.Grp _ r' => needs p r'
  | _ => False
  end.

(** The part of the text that a match step consumes: from [st] to [st'] the
    matcher reads [w], and [w] has a character of [p] when [must] holds. *)
Definition reads (p : Str.char -> bool) (must : Prop) (st st' : Re.state)
  : Prop :=
  exists w, Re.rest st = w ++ Re.rest st' /\
            (must -> existsb p w = true).

(** From [st] to [st'] the matcher moves over [w], and the position grows
    by its length. *)
Definition advances (w : str) (st st' : Re.state) : Prop :=
  Re.rest st = w ++ Re.rest st' /\
  Re.idx st' = Re.idx st + List.length w.

(** The number that a string of ASCII digits denotes. *)
Definition digits_value (s : str) : N :=
  fold_left (fun acc c => (10 * acc + (c - 48))%N) s 0%N.

(** The three values of a [totals] dict. *)
Definition totals_values (t : totals) : list (option float) :=
  [subtotal t; tax t; total_due t].

(** Texts of the examples. *)
Definition padded_fee_text : str := u"  " ++ fee_text ++ [10; 32]%N.
Definition words_text : str := u"Thank you" ++ [10%N] ++ u"Kind regards".
Definition spaced_phone_text : str := u"Call 987 654 321 or pay $25".

(** * Properties *)

Unset Implicit Arguments.

(** ** The order of floats *)

Module FloatFacts.
Import Float.

Lemma leb_total a c : ltb a c = false -> leb c a = true.
Proof.
  unfold leb, ltb, eqb.
  destruct (ord a) as [a1 a2], (ord c) as [c1 c2]. intros H.
  apply orb_false_iff in H as [H1 H2].
  apply Z.ltb_ge in H1.
  destruct (Z.eqb_spec a1 c1) as [->|Hne]; simpl in H2.
  - apply Z.ltb_ge in H2. rewrite Z.ltb_irrefl, Z.eqb_refl. simpl.
    destruct (Z.ltb_spec c2 a2); simpl; [reflexivity|].
    apply Z.eqb_eq. lia.
  - assert (Hlt : (c1 <? a1)%Z = true) by (apply Z.ltb_lt; lia).
    rewrite Hlt. reflexivity.
Qed.

Lemma leb_iff a c :
  leb a c = true <->
  (fst (ord a) < fst (ord c) \/
   fst (ord a) = fst (ord c) /\ snd (ord a) <= snd (ord c))%Z.
Proof.
  unfold leb, ltb, eqb.
  destruct (ord a) as [a1 a2], (ord c) as [c1 c2]. simpl.
  rewrite !orb_true_iff, !andb_true_iff, !Z.ltb_lt, !Z.eqb_eq. lia.
Qed.

Lemma leb_trans a c e : leb a c = true -> leb c e = true -> leb a e = true.
Proof. rewrite !leb_iff. lia. Qed.

Lemma leb_refl a : leb a a = true.
Proof. rewrite leb_iff. lia. Qed.

End FloatFacts.

(** ** Lists: loops, sorting, deduplication *)

Section ListFacts.

Variables A B K : Type.

Lemma collect_ok (f : A -> result (option B)) (l : list A) :
  (forall x, In x l -> exists o, f x = Ok o) ->
  exists r, collect f l = Ok r.
Proof.
  induction l as [|x l IH]; intros H; simpl.
  - eauto.
  - destruct (H x (or_introl eq_refl)) as [o ->].
    destruct IH as [r ->]; [intros; apply H; right; assumption|].
    simpl. eauto.
Qed.

Lemma collect_in (f : A -> result (option B)) (l : list A) r y :
  collect f l = Ok r -> In y r -> exists x, In x l /\ f x = Ok (Some y).
Proof.
  revert r. induction l as [|x l IH]; intros r; simpl.
  - intros [= <-] [].
  - destruct (f x) as [o|] eqn:Hf; simpl; [|discriminate].
    destruct (collect f l) as [r'|]; simpl; [|discriminate].
    intros [= <-] Hy.
    destruct o as [y'|].
    + destruct Hy as [<-|Hy]; [eauto|].
      destruct (IH _ eq_refl Hy) as (x' & ? & ?). eauto.
    + destruct (IH _ eq_refl Hy) as (x' & ? & ?). eauto.
Qed.

Lemma collect_all_ok (f : A -> result (list B)) (l : list A) :
  (forall x, In x l -> exists r, f x = Ok r) ->
  exists r, collect_all f l = Ok r.
Proof.
  induction l as [|x l IH]; intros H; simpl.
  - eauto.
  - destruct (H x (or_introl eq_refl)) as [o ->].
    destruct IH as [r ->]; [intros; apply H; right; assumption|].
    simpl. eauto.
Qed.

Lemma collect_all_in (f : A -> result (list B)) (l : list A) r y :
  collect_all f l = Ok r -> In y r ->
  exists x r', In x l /\ f x = Ok r' /\ In y r'.
Proof.
  revert r. induction l as [|x l IH]; intros r; simpl.
  - intros [= <-] [].
  - destruct (f x) as [o|] eqn:Hf; simpl; [|discriminate].
    destruct (collect_all f l) as [r'|]; simpl; [|discriminate].
    intros [= <-] Hy. apply in_app_or in Hy as [Hy|Hy].
    + eauto 6.
    + destruct (IH _ eq_refl Hy) as (x' & r'' & ? & ? & ?). eauto 7.
Qed.

Lemma enumerate_in (l : list A) i x :
  In (i, x) (enumerate l) -> i < List.length l.
Proof.
  unfold enumerate. intros H. apply in_combine_l in H.
  apply in_seq in H. lia.
Qed.

Lemma insert_by_in (le : A -> A -> bool) x y l :
  In y (insert_by le x l) <-> y = x \/ In y l.
Proof.
  induction l as [|z l IH]; simpl.
  - intuition congruence.
  - destruct (le x z); simpl; rewrite ?IH; intuition congruence.
Qed.

Lemma sort_by_in (le : A -> A -> bool) y l :
  In y (sort_by le l) <-> In y l.
Proof.
  induction l as [|x l IH]; simpl; [tauto|].
  rewrite insert_by_in, IH. intuition congruence.
Qed.

Lemma insert_by_skip (le : A -> A -> bool) x l1 l2 :
  Forall (fun y => le x y = false) l1 ->
  insert_by le x (l1 ++ l2) = l1 ++ insert_by le x l2.
Proof.
  induction 1 as [|y l1 Hy _ IH]; simpl; [reflexivity|].
  rewrite Hy, IH. reflexivity.
Qed.

Lemma insert_by_here (le : A -> A -> bool) x l :
  Forall (fun y => le x y = true) l -> insert_by le x l = x :: l.
Proof.
  destruct 1 as [|y l Hy _]; simpl; [reflexivity|].
  rewrite Hy. reflexivity.
Qed.

(** The head of a list sorted by a total, transitive order is below every
    element. *)
Lemma sort_by_head (le : A -> A -> bool) l :
  (forall x y, le x y = false -> le y x = true) ->
  (forall x y z, le x y = true -> le y z = true -> le x z = true) ->
  l <> [] ->
  exists h t, sort_by le l = h :: t /\ In h l /\
              forall y, In y l -> le h y = true.
Proof.
  intros Htot Htrans. induction l as [|x l IH]; [congruence|]. intros _.
  assert (Hrefl : forall z, le z z = true).
  { intros z. destruct (le z z) eqn:E; [reflexivity|].
    pose proof (Htot z z E). congruence. }
  destruct l as [|x' l'].
  - simpl. exists x, []. split; [reflexivity|]. split; [left; reflexivity|].
    intros y [<-|[]]. apply Hrefl.
  - destruct IH as (h & t & Hs & Hin & Hmin); [congruence|].
    change (sort_by le (x :: x' :: l')) with (insert_by le x (sort_by le (x' :: l'))).
    rewrite Hs. simpl. destruct (le x h) eqn:E.
    + exists x, (h :: t). split; [reflexivity|]. split; [left; reflexivity|].
      intros y [<-|Hy]; [apply Hrefl|]. eapply Htrans; [exact E|]. apply Hmin, Hy.
    + exists h, (insert_by le x t). split; [reflexivity|]. split; [right; exact Hin|].
      intros y [<-|Hy]; [apply Htot, E|]. apply Hmin, Hy.
Qed.

Lemma dedup_go_in (eqk : K -> K -> bool) (key : A -> K) l keys y :
  In y (dedup_go eqk key l keys) -> In y l.
Proof.
  revert keys. induction l as [|x l IH]; intros keys; simpl; [tauto|].
  destruct (existsb (eqk (key x)) keys); simpl; intros H.
  - right. eapply IH, H.
  - destruct H as [->|H]; [left; reflexivity|]. right. eapply IH, H.
Qed.

Lemma dedup_by_in (eqk : K -> K -> bool) (key : A -> K) l y :
  In y (dedup_by eqk key l) -> In y l.
Proof. apply dedup_go_in. Qed.

End ListFacts.

(** ** Groups that take part in every match *)

Module ReFacts.
Import Re.

Section Caps.

Variable g : nat.
Variable A : Type.

Lemma rep_loop_caps (body : state -> (state -> option A) -> option A)
  (must : bool) lo hi (k : state -> option A) :
  (forall st k' a, body st k' = Some a ->
     exists st', k' st' = Some a /\ keeps g must st st') ->
  forall fuel i st a,
    rep_loop body lo hi k fuel i st = Some a ->
    exists st', k st' = Some a /\
                keeps g (Nat.ltb i lo && must) st st'.
Proof.
  intros Hbody.
  assert (Hstop : forall i st a,
            (if Nat.leb lo i then k st else None) = Some a ->
            exists st', k st' = Some a /\ keeps g (Nat.ltb i lo && must) st st').
  { intros i st a H. destruct (Nat.leb_spec lo i) as [Hle|Hlt]; [|discriminate].
    exists st. split; [exact H|]. split; [tauto|].
    destruct (Nat.ltb_spec i lo); [lia|]. discriminate. }
  induction fuel as [|fuel IH]; intros i st a; simpl.
  - apply Hstop.
  - destruct (below i hi); [|apply Hstop].
    destruct (body st _) as [a'|] eqn:Hb; [|apply Hstop].
    intros [= ->].
    apply Hbody in Hb as (st1 & Hk1 & Hkeep1 & Hmust1).
    destruct (Nat.ltb (idx st) (idx st1)); [|discriminate].
    apply IH in Hk1 as (st' & Hk & Hkeep & _).
    exists st'. split; [exact Hk|]. split; [tauto|].
    intros Hm. apply andb_true_iff in Hm as [_ Hm]. auto.
Qed.

Lemma m_keeps (r : regex) :
  forall st (k : state -> option A) a,
    m r st k = Some a ->
    exists st', k st' = Some a /\ keeps g (always_caps g r) st st'.
Proof.
  induction r as [|p|r1 IH1 r2 IH2|r1 IH1 r2 IH2|r IH lo hi|g' r IH|w|];
    intros st k a; cbn [m always_caps].
  - intros H. exists st. split; [exact H|]. split; [tauto|discriminate].
  - destruct (rest st) as [|c rest']; [discriminate|].
    destruct (p c); [|discriminate]. intros H.
    eexists. split; [exact H|]. split; [simpl; tauto|discriminate].
  - intros H. apply IH1 in H as (st1 & H & Hk1 & Hm1).
    apply IH2 in H as (st2 & H & Hk2 & Hm2).
    exists st2. split; [exact H|]. split; [tauto|].
    intros Hm. apply orb_true_iff in Hm as [Hm|Hm]; auto.
  - destruct (m r1 st k) as [a'|] eqn:H1.
    + intros [= ->]. apply IH1 in H1 as (st1 & H & Hk1 & Hm1).
      exists st1. split; [exact H|]. split; [tauto|].
      intros Hm. apply andb_true_iff in Hm as [Hm _]. auto.
    + intros H. apply IH2 in H as (st2 & H & Hk2 & Hm2).
      exists st2. split; [exact H|]. split; [tauto|].
      intros Hm. apply andb_true_iff in Hm as [_ Hm]. auto.
  - intros H. eapply rep_loop_caps in H; [|exact IH].
    destruct H as (st' & H & Hk & Hm). exists st'. split; [exact H|].
    split; [exact Hk|]. exact Hm.
  - intros H. apply IH in H as (st1 & H & Hk1 & Hm1).
    eexists. split; [exact H|]. unfold keeps, has in *. simpl.
    destruct (Nat.eqb g g'); simpl; [split; reflexivity|]. tauto.
  - destruct (xorb _ _); [|discriminate]. intros H.
    exists st. split; [exact H|]. split; [tauto|discriminate].
  - destruct (rest st) as [|c [|c' rest']]; try discriminate.
    + intros H. exists st. split; [exact H|]. split; [tauto|discriminate].
    + destruct (c =? 10)%N; [|discriminate]. intros H.
      exists st. split; [exact H|]. split; [tauto|discriminate].
Qed.

End Caps.

Lemma search_from_caps g r p s i j st :
  always_caps g r = true -> search_from r p s i = Some (j, st) ->
  has g (caps st) = true.
Proof.
  intros Hg. revert p i. induction s as [|c s IH]; intros p i; simpl.
  - destruct (match_here r p [] i) as [st'|] eqn:H; [|discriminate].
    intros [= _ ->]. apply (m_keeps g _) in H as (st'' & [= ->] & _ & Hm). auto.
  - destruct (match_here r p (c :: s) i) as [st'|] eqn:H.
    + intros [= _ ->]. apply (m_keeps g _) in H as (st'' & [= ->] & _ & Hm). auto.
    + apply IH.
Qed.

Lemma search_group g r s mt :
  always_caps g r = true -> search r s = Some mt ->
  exists x, group s mt g = Some x.
Proof.
  unfold search, group. intros Hg.
  destruct (search_from r None s 0) as [[j st]|] eqn:H; [|discriminate].
  intros [= <-]. simpl. eapply search_from_caps in H; [|exact Hg].
  unfold has in H. destruct (lookup_cap g (caps st)) as [[a c]|]; [eauto|discriminate].
Qed.

Lemma finditer_group g r s mt :
  always_caps g r = true -> In mt (finditer r s) ->
  exists x, group s mt g = Some x.
Proof.
  intros Hg. unfold finditer.
  assert (H : forall fuel p t i, In mt (finditer_go fuel r p t i) ->
                                has g (m_caps mt) = true).
  { induction fuel as [|fuel IH]; intros p t i; simpl; [tauto|].
    destruct (search_from r p t i) as [[j st]|] eqn:Hs; [|intros []].
    intros [<-|Hin].
    - simpl. eapply search_from_caps; eauto.
    - destruct (Nat.ltb j (idx st)); [eapply IH, Hin|].
      destruct (rest st); [destruct Hin|eapply IH, Hin]. }
  intros Hin. apply H in Hin. unfold has in Hin. unfold group.
  destruct (lookup_cap g (m_caps mt)) as [[a c]|]; [eauto|discriminate].
Qed.

End ReFacts.

(** ** Strings *)

Module StrFacts.
Import Str.

Lemma lstrip_blank s : forallb isspace s = true -> lstrip s = [].
Proof.
  induction s as [|c s IH]; simpl; [reflexivity|].
  intros H. apply andb_true_iff in H as [-> H]. auto.
Qed.

Lemma strip_blank s : forallb isspace s = true -> strip s = [].
Proof.
  intros H. unfold strip. rewrite (lstrip_blank _ H). reflexivity.
Qed.

Lemma contains_char c s : contains [c] s = existsb (N.eqb c) s.
Proof.
  induction s as [|x s IH]; simpl; [reflexivity|].
  rewrite IH, andb_true_r. reflexivity.
Qed.

Lemma replace_go_char c new fuel s :
  List.length s <= fuel ->
  replace_go fuel [c] new s =
  flat_map (fun x => if (x =? c)%N then new else [x]) s.
Proof.
  revert s. induction fuel as [|fuel IH]; intros [|x s]; simpl; try reflexivity.
  - lia.
  - intros Hlen. rewrite andb_true_r, (N.eqb_sym c x).
    destruct (x =? c)%N; simpl; rewrite IH by lia; reflexivity.
Qed.

Lemma replace_char_empty c s :
  replace [c] [] s = filter (fun x => negb (x =? c)%N) s.
Proof.
  unfold replace. rewrite replace_go_char by lia.
  induction s as [|x s IH]; simpl; [reflexivity|].
  destruct (x =? c)%N; simpl; rewrite IH; reflexivity.
Qed.

Lemma replace_char_char c c' s :
  replace [c] [c'] s = map (fun x => if (x =? c)%N then c' else x) s.
Proof.
  unfold replace. rewrite replace_go_char by lia.
  induction s as [|x s IH]; simpl; [reflexivity|].
  destruct (x =? c)%N; simpl; rewrite IH; reflexivity.
Qed.

Lemma map_absent c c' s :
  existsb (N.eqb c) s = false ->
  map (fun x => if (x =? c)%N then c' else x) s = s.
Proof.
  induction s as [|x s IH]; simpl; [reflexivity|].
  intros H. apply orb_false_iff in H as [Hx H].
  rewrite N.eqb_sym in Hx. rewrite Hx, IH by assumption. reflexivity.
Qed.

Lemma rfind_from_agree s : forall i lc lp acc,
  (lc < i)%Z -> (lp < i)%Z -> agree lc lp acc ->
  agree (rfind_from 44%N s i lc) (rfind_from 46%N s i lp)
    (fold_left (fun acc c => if ((c =? 44) || (c =? 46))%N then Some c else acc)
       s acc).
Proof.
  induction s as [|x s IH]; intros i lc lp acc Hc Hp H; simpl; [exact H|].
  apply IH.
  - destruct (x =? 44)%N; lia.
  - destruct (x =? 46)%N; lia.
  - destruct (N.eqb_spec x 44%N) as [->|H44]; simpl.
    + right. left. split; [reflexivity|lia].
    + destruct (N.eqb_spec x 46%N) as [->|H46]; simpl.
      * right. right. split; [reflexivity|lia].
      * exact H.
Qed.

Lemma rfind_agree s :
  agree (rfind 44%N s) (rfind 46%N s)
    (fold_left (fun acc c => if ((c =? 44) || (c =? 46))%N then Some c else acc)
       s None).
Proof.
  apply rfind_from_agree; [lia|lia|]. left. auto.
Qed.

End StrFacts.

(** ** The extractor *)

Section Claims.

Context {U : Unicode}.
Variable parse : date_order -> str -> option datetime.

(** *** Amount tokens *)

Lemma parse_amount_text_spec amt : parse_amount_text amt = parse_amount_amended amt.
Proof.
  destruct amt as [|c0 amt]; [reflexivity|].
  unfold parse_amount_text, parse_amount_amended.
  change (u" ") with [32%N]. change (u",") with [44%N]. change (u".") with [46%N].
  rewrite !StrFacts.replace_char_empty, !StrFacts.replace_char_char,
    !StrFacts.contains_char.
  fold (strip_char 160%N (c0 :: amt)).
  fold (strip_char 32%N (strip_char 160%N (c0 :: amt))).
  set (t := strip_char 32%N (strip_char 160%N (c0 :: amt))).
  fold (occurs 44%N t). fold (occurs 46%N t).
  fold (strip_char 44%N t). fold (strip_char 46%N t).
  fold (subst_char 44%N 46%N (strip_char 46%N t)). fold (subst_char 44%N 46%N t).
  assert (E : (if occurs 44%N t && occurs 46%N t
               then if (Str.rfind 44%N t <? Str.rfind 46%N t)%Z
                    then strip_char 44%N t
                    else subst_char 44%N 46%N (strip_char 46%N t)
               else if occurs 44%N t && Re.is_some (Re.search comma_triple t)
                    then strip_char 44%N t
                    else subst_char 44%N 46%N t) = normalize_spec t).
  { unfold normalize_spec.
    destruct (occurs 44%N t) eqn:Hc; simpl.
    - destruct (occurs 46%N t) eqn:Hp; [|reflexivity].
      pose proof (StrFacts.rfind_agree t) as H.
      change (fold_left _ t None) with (last_separator t) in H.
      destruct H as [(-> & -> & ->)|[(-> & H)|(-> & H)]].
      + reflexivity.
      + destruct (Z.ltb_spec (Str.rfind 44%N t) (Str.rfind 46%N t)); [lia|reflexivity].
      + destruct (Z.ltb_spec (Str.rfind 44%N t) (Str.rfind 46%N t)); [reflexivity|lia].
    - apply StrFacts.map_absent. exact Hc. }
  rewrite E. reflexivity.
Qed.

(** *** Nothing raises *)

Lemma read_digits_run p : forall acc n,
  forallb is_digit p = true ->
  exists v, read_digits p acc n = (v, (n + N.of_nat (List.length p))%N, []).
Proof.
  induction p as [|c p IH]; intros acc n H; cbn [read_digits List.length].
  - exists acc. f_equal. f_equal. lia.
  - cbn [forallb] in H. apply andb_true_iff in H as [Hc H]. unfold is_digit in Hc.
    destruct (decimal_value c) as [v|]; [|discriminate].
    destruct (IH (10 * acc + v)%N (n + 1)%N H) as [v' ->].
    exists v'. f_equal. f_equal. lia.
Qed.

Lemma py_int_run p :
  p <> [] -> forallb is_digit p = true -> exists v, py_int p = Ok v.
Proof.
  intros Hne H. unfold py_int.
  destruct (read_digits_run p 0 0 H) as [v ->].
  destruct p as [|c p]; [congruence|]. simpl List.length.
  destruct (N.eqb_spec (0 + N.of_nat (S (List.length p))) 0); [lia|eauto].
Qed.

Lemma digit_runs_go_run s : forall cur p,
  forallb is_digit cur = true ->
  In p (digit_runs_go s cur) -> p <> [] /\ forallb is_digit p = true.
Proof.
  assert (Hrev : forall cur, cur <> [] -> forallb is_digit cur = true ->
                 rev cur <> [] /\ forallb is_digit (rev cur) = true).
  { intros cur Hne H. split.
    - intros E. apply (f_equal (@rev _)) in E. rewrite rev_involutive in E.
      simpl in E. congruence.
    - rewrite forallb_forall in *. intros x Hx. apply H, in_rev, Hx. }
  induction s as [|c s IH]; intros cur p Hcur; simpl.
  - destruct cur as [|x cur]; [intros []|]. intros [<-|[]].
    apply Hrev; [congruence|assumption].
  - destruct (is_digit c) eqn:Hc.
    + apply IH. simpl. rewrite Hc, Hcur. reflexivity.
    + destruct cur as [|x cur]; [apply IH; reflexivity|].
      intros [<-|Hin]; [apply Hrev; [congruence|assumption]|].
      eapply IH, Hin. reflexivity.
Qed.

Lemma choose_resolve raw : choose parse raw = Ok (resolve parse raw).
Proof.
  unfold choose, resolve.
  destruct (parse DMY raw) as [a|], (parse MDY raw) as [c|]; try reflexivity.
  destruct (datetime_eqb a c); [reflexivity|].
  destruct (Re.is_some _); [reflexivity|].
  destruct (digit_runs raw) as [|p l] eqn:E; [reflexivity|].
  assert (Hin : In p (digit_runs_go raw [])) by (fold (digit_runs raw); rewrite E; left; reflexivity).
  apply digit_runs_go_run in Hin as [Hne Hd]; [|reflexivity].
  destruct (py_int_run p Hne Hd) as [v ->]. simpl.
  destruct (12 <? v)%N; reflexivity.
Qed.

Lemma dates_loop_fold text ms : forall labels,
  dates_loop parse text ms labels =
  Ok (fold_left (fun l p => assign l (fst p) (snd p))
        (map (fun mt => (window_slot (window_of text mt),
                         option_map isoformat (resolve parse (Re.group0 text mt))))
           ms)
        labels).
Proof.
  induction ms as [|mt ms IH]; intros labels; simpl; [reflexivity|].
  rewrite choose_resolve. simpl. apply IH.
Qed.

Lemma find_app {A} (f : A -> bool) l1 l2 :
  find f (l1 ++ l2) = match find f l1 with Some x => Some x | None => find f l2 end.
Proof.
  induction l1 as [|x l1 IH]; simpl; [reflexivity|].
  destruct (f x); [reflexivity|exact IH].
Qed.

Lemma fold_assign pairs : forall labels,
  let r := fold_left (fun l p => assign l (fst p) (snd p)) pairs labels in
  issue_date r = match find (fun p => slot_eqb (fst p) Issue) (rev pairs) with
                 | Some p => snd p | None => issue_date labels end /\
  due_date r = match find (fun p => slot_eqb (fst p) Due) (rev pairs) with
               | Some p => snd p | None => due_date labels end /\
  delivery_date r = match find (fun p => slot_eqb (fst p) Delivery) (rev pairs) with
                    | Some p => snd p | None => delivery_date labels end /\
  other_dates r = other_dates labels ++ all_for Other pairs.
Proof.
  induction pairs as [|[sl iso] pairs IH]; intros labels; simpl.
  - rewrite app_nil_r. auto.
  - destruct (IH (assign labels sl iso)) as (H1 & H2 & H3 & H4).
    rewrite H1, H2, H3, H4, !find_app. unfold all_for. simpl.
    destruct sl; simpl;
      repeat match goal with
             | |- context [find ?f ?l] => destruct (find f l)
             end;
      rewrite <- ?app_assoc; auto.
Qed.

Lemma parse_dates_and_labels_last text :
  parse_dates_and_labels parse text =
  Ok (DateLabels (last_for Issue (assignments parse text))
        (last_for Due (assignments parse text))
        (last_for Delivery (assignments parse text))
        (all_for Other (assignments parse text))).
Proof.
  unfold parse_dates_and_labels. rewrite dates_loop_fold.
  fold (assignments parse text).
  destruct (fold_assign (assignments parse text) (DateLabels None None None []))
    as (H1 & H2 & H3 & H4).
  simpl in *. unfold last_for, first_for.
  destruct (fold_left _ _ _) as [i du de o]. simpl in *.
  subst. reflexivity.
Qed.

Lemma amount_group : Re.always_caps 3 AMOUNT_RE = true.
Proof. reflexivity. Qed.

Lemma invoice_group : Re.always_caps 1 INVOICE_RE = true.
Proof. reflexivity. Qed.

Lemma currency_group : Re.always_caps 1 currency_word = true.
Proof. reflexivity. Qed.

Lemma alpha_group : Re.always_caps 1 alpha_run = true.
Proof. reflexivity. Qed.

Lemma detect_currency_ok sym code raw :
  exists o, detect_currency sym code raw = Ok o.
Proof.
  unfold detect_currency.
  destruct (truthy code); [eauto|]. destruct (truthy sym); [eauto|].
  destruct (Re.search currency_word raw) as [mt|] eqn:E; [|eauto].
  destruct (ReFacts.search_group _ _ _ _ currency_group E) as [x ->]. eauto.
Qed.

Lemma extract_invoice_number_ok text :
  exists o, extract_invoice_number text = Ok o.
Proof.
  unfold extract_invoice_number.
  destruct (Re.search INVOICE_RE text) as [mt|] eqn:E.
  - destruct (ReFacts.search_group _ _ _ _ invoice_group E) as [x ->]. eauto.
  - destruct (Re.search inv_word text); eauto.
Qed.

Lemma describe_ok a : exists o, describe a = Ok o.
Proof.
  unfold describe. destruct (has_letter _); [eauto|].
  destruct (truthy _); [eauto|].
  destruct (Re.search alpha_run (c_context a)) as [mt|] eqn:E; [|eauto].
  destruct (ReFacts.search_group _ _ _ _ alpha_group E) as [x ->]. eauto.
Qed.

Lemma scan_match_ok lines i ln mt :
  i < List.length lines -> In mt (Re.finditer AMOUNT_RE ln) ->
  exists o, scan_match lines i ln mt = Ok o /\
            forall c, o = Some c ->
                      plausible (c_amount c) (c_label c) (c_currency c).
Proof.
  intros Hi Hin. unfold scan_match.
  destruct (_ && _ && _ && _).
  { exists None. split; [reflexivity|discriminate]. }
  destruct (ReFacts.finditer_group _ _ _ _ amount_group Hin) as [amt ->].
  destruct (parse_amount_text _) as [value|].
  2:{ exists None. split; [reflexivity|discriminate]. }
  destruct (detect_currency_ok (Re.group ln mt 2) (Re.group ln mt 4)
              (Re.group0 ln mt)) as [currency ->].
  cbn [bind].
  assert (Hctx : exists context,
            (if Nat.ltb 0 i
             then before <- index lines (i - 1);;
                  Ok (if negb (Re.is_some (Re.search AMOUNT_RE before))
                      then before ++ u" | " ++ ln else ln)
             else Ok ln) = Ok context).
  { destruct (Nat.ltb 0 i); [|eauto]. unfold index.
    destruct (nth_error lines (i - 1)) eqn:E; [simpl; eauto|].
    apply nth_error_None in E. lia. }
  destruct Hctx as [context ->]. cbn [bind].
  destruct (Float.ltb (Float.abs value) Float.three) eqn:Hlt.
  - destruct (guess_label ln) as [l|] eqn:Hl; simpl.
    + eexists. split; [reflexivity|]. intros c [= <-]. simpl.
      right. left. discriminate.
    + destruct currency as [cur|]; simpl.
      * eexists. split; [reflexivity|]. intros c [= <-]. simpl.
        right. right. discriminate.
      * exists None. split; [reflexivity|discriminate].
  - simpl. eexists. split; [reflexivity|]. intros c [= <-]. simpl.
    left. apply FloatFacts.leb_total, Hlt.
Qed.

Lemma scan_ok text :
  exists found, scan text = Ok found /\
    forall c, In c found -> plausible (c_amount c) (c_label c) (c_currency c).
Proof.
  unfold scan. set (lines := text_to_lines text).
  set (f := fun p : nat * str =>
              collect (scan_match lines (fst p) (snd p))
                (Re.finditer AMOUNT_RE (snd p))).
  assert (Hf : forall p, In p (enumerate lines) -> exists r, f p = Ok r).
  { intros [i ln] Hp. apply enumerate_in in Hp. unfold f. simpl.
    apply collect_ok. intros mt Hmt.
    destruct (scan_match_ok lines i ln mt Hp Hmt) as (o & -> & _). eauto. }
  destruct (collect_all_ok _ _ f (enumerate lines) Hf) as [found Hfound].
  exists found. split; [exact Hfound|].
  intros c Hc.
  destruct (collect_all_in _ _ _ _ _ _ Hfound Hc) as ([i ln] & r & Hp & Hr & Hcr).
  unfold f in Hr. simpl in Hr.
  destruct (collect_in _ _ _ _ _ _ Hr Hcr) as (mt & Hmt & Hsm).
  apply enumerate_in in Hp.
  destruct (scan_match_ok lines i ln mt Hp Hmt) as (o & Ho & Hpl).
  rewrite Hsm in Ho. injection Ho as <-. apply Hpl. reflexivity.
Qed.

Lemma find_amounts_ok text :
  exists amounts, find_amounts_with_context text = Ok amounts /\
    forall c, In c amounts -> plausible (c_amount c) (c_label c) (c_currency c).
Proof.
  unfold find_amounts_with_context.
  destruct (scan_ok text) as (found & -> & H). cbn [bind].
  eexists. split; [reflexivity|].
  intros c Hc. apply sort_by_in, dedup_by_in in Hc. auto.
Qed.

(** *** Totals *)

Lemma label_totals_last amounts : forall t,
  let r := label_totals amounts t in
  subtotal r = match last_labelled Subtotal amounts with
               | Some c => Some (c_amount c) | None => subtotal t end /\
  tax r = match last_labelled Tax amounts with
          | Some c => Some (c_amount c) | None => tax t end /\
  total_due r = match last_labelled TotalDue amounts with
                | Some c => Some (c_amount c) | None => total_due t end.
Proof.
  unfold last_labelled.
  induction amounts as [|a amounts IH]; intros t; simpl; [auto|].
  rewrite !find_app. simpl. unfold has_label at 2 4 6.
  match goal with |- context [label_totals amounts ?t'] =>
    destruct (IH t') as (H1 & H2 & H3) end.
  rewrite H1, H2, H3.
  destruct (c_label a) as [[]|]; simpl;
    repeat match goal with
           | |- context [find ?f ?l] => destruct (find f l)
           end; auto.
Qed.

Lemma by_magnitude_total x y : by_magnitude x y = false -> by_magnitude y x = true.
Proof.
  unfold by_magnitude, Float.leb at 1. intros H.
  apply orb_false_iff in H as [H _]. apply FloatFacts.leb_total, H.
Qed.

Lemma by_magnitude_trans x y z :
  by_magnitude x y = true -> by_magnitude y z = true -> by_magnitude x z = true.
Proof. unfold by_magnitude. intros. eapply FloatFacts.leb_trans; eassumption. Qed.

Lemma find_totals_eq amounts :
  find_totals amounts =
  Ok (Totals
        (option_map c_amount (last_labelled Subtotal amounts))
        (option_map c_amount (last_labelled Tax amounts))
        match last_labelled TotalDue amounts with
        | Some c => Some (c_amount c)
        | None => option_map c_amount (hd_error (sort_by by_magnitude amounts))
        end).
Proof.
  unfold find_totals.
  destruct (label_totals_last amounts (Totals None None None)) as (H1 & H2 & H3).
  simpl in H1, H2, H3.
  destruct (label_totals amounts (Totals None None None)) as [s t d].
  simpl in *. subst.
  destruct (last_labelled TotalDue amounts) as [c|] eqn:E.
  - destruct (last_labelled Subtotal amounts), (last_labelled Tax amounts);
      reflexivity.
  - destruct amounts as [|a amounts]; [reflexivity|].
    destruct (sort_by_head _ by_magnitude (a :: amounts)
                by_magnitude_total by_magnitude_trans) as (h & tl & Hs & _);
      [discriminate|].
    rewrite Hs. simpl.
    destruct (last_labelled Subtotal _), (last_labelled Tax _); reflexivity.
Qed.

(** *** The shape of the result *)

Lemma make_item_in clean items it :
  collect make_item clean = Ok items -> In it items ->
  exists a, In a clean /\ i_amount it = c_amount a /\
            i_currency it = c_currency a /\ i_label it = c_label a /\
            i_raw it = c_raw a.
Proof.
  intros H Hin. destruct (collect_in _ _ _ _ _ _ H Hin) as (a & Ha & Hm).
  exists a. split; [exact Ha|]. unfold make_item in Hm.
  destruct (describe a) as [desc|]; [|discriminate].
  simpl in Hm. injection Hm as <-. simpl. auto.
Qed.

Lemma extract_fields_shape text :
  Str.strip text <> [] ->
  exists invoice amounts t items,
    find_amounts_with_context (Str.strip text) = Ok amounts /\
    find_totals (filter keep_amount amounts) = Ok t /\
    collect make_item (filter keep_amount amounts) = Ok items /\
    extract_fields parse text =
    Ok [("vendor"%string, FStr (extract_vendor (Str.strip text)));
        ("invoice"%string, FStr invoice);
        ("dates"%string,
         FDates (DateLabels
                   (last_for Issue (assignments parse (Str.strip text)))
                   (last_for Due (assignments parse (Str.strip text)))
                   (last_for Delivery (assignments parse (Str.strip text)))
                   (all_for Other (assignments parse (Str.strip text)))));
        ("amounts"%string, FItems (dedup_by item_key_eqb item_key items));
        ("totals"%string, FTotals t)].
Proof.
  intros Hne. unfold extract_fields.
  destruct (Str.strip text) as [|c0 t0] eqn:Et; [congruence|].
  destruct (extract_invoice_number_ok (c0 :: t0)) as [invoice ->].
  rewrite parse_dates_and_labels_last.
  destruct (find_amounts_ok (c0 :: t0)) as (amounts & -> & _).
  cbn [bind]. rewrite find_totals_eq. cbn [bind].
  destruct (collect_ok _ _ make_item (filter keep_amount amounts)) as [items Hitems].
  { intros a _. unfold make_item. destruct (describe_ok a) as [o ->].
    simpl. eauto. }
  rewrite Hitems. cbn [bind].
  exists invoice, amounts. eexists. exists items.
  split; [reflexivity|]. split; [apply find_totals_eq|].
  split; [exact Hitems|reflexivity].
Qed.

(** *** The order of the candidates *)

Ltac by_label :=
  repeat rewrite Forall_app; repeat split;
  apply Forall_forall; intros y Hy; apply filter_In in Hy as [_ Hy];
  unfold has_label, by_score, score_item in *;
  destruct (c_label y) as [[]|]; simpl in *; try discriminate; reflexivity.

Lemma sort_by_score l :
  sort_by by_score l =
  filter (has_label (Some TotalDue)) l ++ filter (has_label (Some Subtotal)) l ++
  filter (has_label (Some Tax)) l ++ filter (has_label None) l.
Proof.
  induction l as [|x l IH]; [reflexivity|].
  cbn [sort_by filter]. rewrite IH.
  set (T := filter (has_label (Some TotalDue)) l).
  set (S_ := filter (has_label (Some Subtotal)) l).
  set (X := filter (has_label (Some Tax)) l).
  set (N_ := filter (has_label None) l).
  unfold has_label at 1 2 3 4.
  destruct (c_label x) as [[]|] eqn:Hx; cbn [option_eqb label_eqb].
  - rewrite (insert_by_skip _ by_score x T (S_ ++ X ++ N_)).
    + rewrite insert_by_here; [reflexivity|].
      unfold by_score at 1, score_item at 1. rewrite Hx. subst S_ X N_. by_label.
    + unfold by_score at 1, score_item at 1. rewrite Hx. subst T. by_label.
  - rewrite (app_assoc T S_), (insert_by_skip _ by_score x (T ++ S_) (X ++ N_)).
    + rewrite insert_by_here; [rewrite <- app_assoc; reflexivity|].
      unfold by_score at 1, score_item at 1. rewrite Hx. subst X N_. by_label.
    + unfold by_score at 1, score_item at 1. rewrite Hx. subst T S_. by_label.
  - rewrite insert_by_here; [reflexivity|].
    unfold by_score at 1, score_item at 1. rewrite Hx. subst T S_ X N_. by_label.
  - rewrite (app_assoc S_ X), (app_assoc T (S_ ++ X)),
      (insert_by_skip _ by_score x (T ++ S_ ++ X) N_).
    + rewrite insert_by_here; [rewrite <- !app_assoc; reflexivity|].
      unfold by_score at 1, score_item at 1. rewrite Hx. subst N_. by_label.
    + unfold by_score at 1, score_item at 1. rewrite Hx. subst T S_ X. by_label.
Qed.

(** ** The claims *)

(** C1 (as amended). For every input, [extract_fields] returns without
    raising. For an input that is empty or blank after stripping it returns
    the empty dict [{}], which has none of the keys; for every other input it
    returns a dict with exactly the keys vendor, invoice, dates, amounts and
    totals, in this order. *)
Theorem extract_fields_total text :
  exists d, extract_fields parse text = Ok d /\
    ((Str.strip text = [] /\ d = []) \/
     (Str.strip text <> [] /\ dict_keys d = record_keys /\
      structurally_complete d)).
Proof.
  destruct (Str.strip text) as [|c0 t0] eqn:E.
  - exists []. unfold extract_fields. rewrite E. auto.
  - destruct (extract_fields_shape text) as (invoice & amounts & t & items & _ & _ & _ & H).
    { rewrite E. discriminate. }
    eexists. split; [exact H|]. right. split; [discriminate|].
    split; [reflexivity|].
    intros k Hk. simpl in Hk.
    destruct Hk as [<-|[<-|[<-|[<-|[<-|[]]]]]]; discriminate.
Qed.

(** C2. For every input that is empty or consists only of whitespace,
    [extract_fields] returns, without raising, the empty dict: every field
    of the record is absent from it. *)
Theorem blank_input_empty_record text :
  forallb Str.isspace text = true ->
  exists d, extract_fields parse text = Ok d /\ d = [] /\
            forall k, dict_get k d = None.
Proof.
  intros H. exists []. unfold extract_fields.
  rewrite (StrFacts.strip_blank text H). auto.
Qed.

(** C3 (as amended). [parse_amount_text] first takes every blank and
    no-break space out of the token and then is the normalisation of the
    specification on what is left: with both [,] and [.] the separator that
    appears last is the decimal point and the other one is stripped; with
    only [,] it is stripped when what is left has [,ddd] at a word boundary
    and replaced with [.] otherwise; a string that [float] rejects gives
    [None]. On ["1,234.56"] and ["1.234,56"] the result is 1234.56, on
    ["2,500"] it is 2500.0, on ["3,5"] it is 3.5, and the unconvertible
    ["1.2.3"] gives [None]. *)
Theorem parse_amount_text_normalization :
  (forall amt, parse_amount_text amt = parse_amount_amended amt) /\
  parse_amount_text (u"1,234.56") = Some (Float.of_bits 0x40934A3D70A3D70A) /\
  parse_amount_text (u"1.234,56") = Some (Float.of_bits 0x40934A3D70A3D70A) /\
  parse_amount_text (u"2,500") = Some (Float.of_bits 0x40A3880000000000) /\
  parse_amount_text (u"3,5") = Some (Float.of_bits 0x400C000000000000) /\
  parse_amount_text (u"1.2.3") = None.
Proof.
  split; [exact parse_amount_text_spec|].
  repeat split; vm_compute; reflexivity.
Qed.

(** C4. Whenever at least one amount candidate survives the post-filter,
    [totals.total_due] is populated; when no surviving candidate is labelled
    total_due, it is the amount of a surviving candidate whose absolute value
    is largest among all surviving candidates. *)
Theorem total_due_populated text amounts :
  find_amounts_with_context (Str.strip text) = Ok amounts ->
  filter keep_amount amounts <> [] ->
  exists d v,
    extract_fields parse text = Ok d /\
    total_due (totals_of d) = Some v /\
    ((forall c, In c (filter keep_amount amounts) -> c_label c <> Some TotalDue) ->
     (exists c, In c (filter keep_amount amounts) /\ c_amount c = v) /\
     Forall (fun c => Float.leb (Float.abs (c_amount c)) (Float.abs v) = true)
       (filter keep_amount amounts)).
Proof.
  intros Ha Hne.
  destruct (extract_fields_shape text) as (invoice & amounts' & t & items & Ha' & Ht & _ & H).
  { intros E. rewrite E in Ha. vm_compute in Ha. injection Ha as <-.
    apply Hne. reflexivity. }
  rewrite Ha in Ha'. injection Ha' as <-.
  rewrite find_totals_eq in Ht. injection Ht as <-.
  remember (filter keep_amount amounts) as clean eqn:Eclean.
  destruct (sort_by_head _ by_magnitude clean by_magnitude_total
              by_magnitude_trans Hne) as (h & tl & Hs & Hin & Hmax).
  rewrite Hs in H.
  destruct (last_labelled TotalDue clean) as [c|] eqn:El.
  - eexists. exists (c_amount c). split; [exact H|].
    split; [reflexivity|].
    intros Hno. exfalso. unfold last_labelled in El.
    apply find_some in El as [Hc Hl]. apply in_rev in Hc.
    apply (Hno c Hc). unfold has_label in Hl.
    destruct (c_label c) as [[]|]; try discriminate. reflexivity.
  - eexists. exists (c_amount h). split; [exact H|].
    split; [reflexivity|].
    intros _. split; [eauto|]. apply Forall_forall. exact Hmax.
Qed.

(** C5 (as amended). The deduplicated candidates come out sorted by the
    score of [score_item]: those labelled total_due first, then those
    labelled subtotal, then those labelled tax, then the unlabelled ones,
    each group in the order of the scan. *)
Theorem find_amounts_order text :
  find_amounts_with_context text =
  (found <- scan text;;
   let dedup := dedup_by candidate_key_eqb candidate_key found in
   Ok (filter (has_label (Some TotalDue)) dedup ++
       filter (has_label (Some Subtotal)) dedup ++
       filter (has_label (Some Tax)) dedup ++
       filter (has_label None) dedup)).
Proof.
  unfold find_amounts_with_context.
  destruct (scan text); [|reflexivity].
  cbn [bind]. rewrite sort_by_score. reflexivity.
Qed.

(** C6 (as amended). Each of the slots issue, due and delivery holds the
    date of the last match whose window selects it: a later match
    overwrites the earlier assignment; only [other_dates] accumulates, in
    scan order. *)
Theorem date_slots_last_wins text :
  parse_dates_and_labels parse text =
  Ok (DateLabels (last_for Issue (assignments parse text))
        (last_for Due (assignments parse text))
        (last_for Delivery (assignments parse text))
        (all_for Other (assignments parse text))).
Proof. apply parse_dates_and_labels_last. Qed.

(** C7 (what the code does on the failing input). Whenever a span parses
    under both settings and the parses disagree, the day-first parse is
    chosen, on each of the three paths (ISO shape, first number above 12,
    default). The span ["2025-12-01"] has the ISO shape, and the result for
    it is its day-first parse whatever the month-first one is: with the
    day-first reading of [dateparser], the twelfth of January 2025, the
    text ["2025-12-01"] resolves to ["2025-01-12"], not to
    ["2025-12-01"]. *)
Theorem iso_span_read_day_first :
  (forall raw a c,
     parse DMY raw = Some a -> parse MDY raw = Some c ->
     datetime_eqb a c = false ->
     choose parse raw = Ok (Some a)) /\
  Re.is_some (Re.match_start iso_shape (u"2025-12-01")) = true /\
  (forall a,
     parse DMY (u"2025-12-01") = Some a ->
     (year a =? 2025)%N && (month a =? 1)%N && (day a =? 12)%N = true ->
     parse_dates_and_labels parse (u"2025-12-01") =
     Ok (DateLabels None None None [Some (u"2025-01-12")])).
Proof.
  split; [|split].
  - intros raw a c Ha Hc _. rewrite choose_resolve. unfold resolve.
    rewrite Ha. reflexivity.
  - vm_compute. reflexivity.
  - intros a Ha Hd. rewrite parse_dates_and_labels_last.
    assert (E : assignments parse (u"2025-12-01") =
                [(Other, Some (isoformat a))]).
    { unfold assignments.
      replace (Re.finditer DATE_RE (u"2025-12-01")) with [Re.Match 0 10 []]
        by (vm_compute; reflexivity).
      cbn [map].
      replace (window_slot (window_of (u"2025-12-01") (Re.Match 0 10 [])))
        with Other by (vm_compute; reflexivity).
      replace (Re.group0 (u"2025-12-01") (Re.Match 0 10 []))
        with (u"2025-12-01") by (vm_compute; reflexivity).
      unfold resolve. rewrite Ha. reflexivity. }
    rewrite E.
    apply andb_true_iff in Hd as [Hd Hd3]. apply andb_true_iff in Hd as [Hd1 Hd2].
    apply N.eqb_eq in Hd1, Hd2, Hd3.
    unfold isoformat. rewrite Hd1, Hd2, Hd3. vm_compute. reflexivity.
Qed.

(** C8. Every line item of a result has an absolute amount of at least 3.0,
    or a label, or a currency. *)
Theorem small_amounts_filtered text d :
  extract_fields parse text = Ok d ->
  Forall (fun it => plausible (i_amount it) (i_label it) (i_currency it))
    (items_of d).
Proof.
  intros H.
  destruct (Str.strip text) as [|c0 t0] eqn:E.
  - unfold extract_fields in H. rewrite E in H. injection H as <-. constructor.
  - destruct (extract_fields_shape text) as (invoice & amounts & t & items & Ha & _ & Hi & H').
    { rewrite E. discriminate. }
    rewrite H in H'. injection H' as ->.
    apply Forall_forall. intros it Hit.
    change (items_of _) with (dedup_by item_key_eqb item_key items) in Hit.
    apply dedup_by_in in Hit.
    destruct (make_item_in _ _ _ Hi Hit) as (a & Hin & -> & -> & -> & _).
    apply filter_In in Hin as [Hin _].
    destruct (find_amounts_ok (Str.strip text)) as (amounts' & Ha' & Hp).
    rewrite Ha in Ha'. injection Ha' as <-. auto.
Qed.

(** C9 (what the code does on the failing input). The line
    ["Phone: 9876543210"] has a bare ten-digit number and no currency, and
    yet it yields three line items: [AMOUNT_RE] takes the digits three at a
    time, so the candidates 987, 654 and 321 are short enough to pass every
    filter. *)
Theorem phone_digits_survive :
  exists d,
    extract_fields parse (u"Phone: 9876543210") = Ok d /\
    map i_raw (items_of d) = [u"987"; u"654"; u"321"] /\
    map i_amount (items_of d) =
      [Float.of_bits 0x408ED80000000000; Float.of_bits 0x4084700000000000;
       Float.of_bits 0x4074100000000000] /\
    map i_currency (items_of d) = [None; None; None].
Proof.
  vm_compute. eexists. repeat split.
Qed.

(** The post-filter itself does what it says: no line item without a
    currency has a raw text of phone shape or with more than twelve
    digits. *)
Lemma post_filter_sound text d :
  extract_fields parse text = Ok d ->
  Forall (fun it => i_currency it = None ->
                    Re.search PHONE_RE (i_raw it) = None /\
                    List.length (digits_of (i_raw it)) <= 12)
    (items_of d).
Proof.
  intros H.
  destruct (Str.strip text) as [|c0 t0] eqn:E.
  - unfold extract_fields in H. rewrite E in H. injection H as <-. constructor.
  - destruct (extract_fields_shape text) as (invoice & amounts & t & items & Ha & _ & Hi & H').
    { rewrite E. discriminate. }
    rewrite H in H'. injection H' as ->.
    apply Forall_forall. intros it Hit.
    change (items_of _) with (dedup_by item_key_eqb item_key items) in Hit.
    apply dedup_by_in in Hit.
    destruct (make_item_in _ _ _ Hi Hit) as (a & Hin & _ & -> & _ & ->).
    apply filter_In in Hin as [_ Hk]. intros Hc.
    unfold keep_amount in Hk. rewrite Hc in Hk. simpl in Hk.
    rewrite !andb_true_r in Hk.
    destruct (Re.search PHONE_RE (c_raw a)); [discriminate|].
    simpl in Hk. split; [reflexivity|].
    destruct (Nat.ltb_spec 12 (List.length (digits_of (c_raw a))));
      [discriminate|lia].
Qed.

(** C10. [find_totals] takes each of subtotal, tax and total_due from the
    candidate with that label that occurs last in the list it is given,
    each later one overwriting the earlier ones. So with the two lines
    ["Subtotal: $100"] and ["Subtotal: $250"] the subtotal of the result is
    250.0 and not the 100.0 of the first subtotal line. *)
Theorem last_labelled_wins :
  (forall amounts,
     find_totals amounts =
     Ok (Totals
           (option_map c_amount (last_labelled Subtotal amounts))
           (option_map c_amount (last_labelled Tax amounts))
           match last_labelled TotalDue amounts with
           | Some c => Some (c_amount c)
           | None => option_map c_amount (hd_error (sort_by by_magnitude amounts))
           end)) /\
  (exists d amounts,
     let text := u"Subtotal: $100" ++ [10%N] ++ u"Subtotal: $250" in
     extract_fields parse text = Ok d /\
     find_amounts_with_context text = Ok amounts /\
     map c_line (filter (has_label (Some Subtotal)) amounts) =
       [u"Subtotal: $100"; u"Subtotal: $250"] /\
     map c_amount (filter (has_label (Some Subtotal)) amounts) =
       [Float.of_bits 0x4059000000000000; Float.of_bits 0x406F400000000000] /\
     subtotal (totals_of d) = Some (Float.of_bits 0x406F400000000000)).
Proof.
  split; [exact find_totals_eq|].
  vm_compute. eexists. eexists. repeat split.
Qed.

End Claims.

(** ** Closed examples *)

(** C1, counterexample: on the empty string the result is [{}], which has
    no key ["vendor"]. *)
Lemma empty_input_not_complete :
  ~ (forall (U : Unicode) (parse : date_order -> str -> option datetime)
            (text : str),
       exists d, @extract_fields U parse text = Ok d /\ structurally_complete d).
Proof.
  intros H. destruct (H ascii_tables numeric_dates []) as (d & Hd & Hc).
  vm_compute in Hd. injection Hd as <-.
  apply (Hc "vendor"%string); [left; reflexivity|reflexivity].
Qed.

(** C2, witness: a blank, a tab and a line feed. *)
Lemma blank_input_witness :
  forallb Str.isspace blank_text = true /\
  exists d, @extract_fields ascii_tables numeric_dates blank_text = Ok d /\
            d = [] /\ forall k, dict_get k d = None.
Proof.
  split; [reflexivity|].
  apply (@blank_input_empty_record ascii_tables numeric_dates blank_text).
  reflexivity.
Defined.

(** C3, counterexample: in ["1,234 567"] the comma is followed by three
    digits at a word boundary, so the rule on the token strips it and gives
    1234567.0; the code takes the blank out first, finds six digits after
    the comma, and gives 1.234567. *)
Lemma blank_after_comma_group :
  @parse_amount_text ascii_tables (u"1,234 567") =
    Some (Float.of_bits 0x3FF3C0C9539B8887) /\
  @parse_amount_worded ascii_tables (u"1,234 567") =
    Some (Float.of_bits 0x4132D68700000000) /\
  ~ (forall (U : Unicode) (amt : str),
       @parse_amount_text U amt = @parse_amount_worded U amt).
Proof.
  assert (H1 : @parse_amount_text ascii_tables (u"1,234 567") =
               Some (Float.of_bits 0x3FF3C0C9539B8887))
    by (vm_compute; reflexivity).
  assert (H2 : @parse_amount_worded ascii_tables (u"1,234 567") =
               Some (Float.of_bits 0x4132D68700000000))
    by (vm_compute; reflexivity).
  split; [exact H1|]. split; [exact H2|].
  intros H. specialize (H ascii_tables (u"1,234 567")).
  rewrite H1, H2 in H. vm_compute in H. discriminate.
Qed.

(** C4, witness: two unlabelled amounts, the larger one becomes the total. *)
Lemma total_due_witness :
  @find_amounts_with_context ascii_tables (Str.strip fee_text) = Ok fee_amounts /\
  filter (@keep_amount ascii_tables) fee_amounts <> [] /\
  exists d v,
    @extract_fields ascii_tables numeric_dates fee_text = Ok d /\
    total_due (totals_of d) = Some v /\
    ((forall c, In c (filter (@keep_amount ascii_tables) fee_amounts) ->
                c_label c <> Some TotalDue) ->
     (exists c, In c (filter (@keep_amount ascii_tables) fee_amounts) /\
                c_amount c = v) /\
     Forall (fun c => Float.leb (Float.abs (c_amount c)) (Float.abs v) = true)
       (filter (@keep_amount ascii_tables) fee_amounts)).
Proof.
  assert (H1 : @find_amounts_with_context ascii_tables (Str.strip fee_text) =
               Ok fee_amounts) by (vm_compute; reflexivity).
  assert (H2 : filter (@keep_amount ascii_tables) fee_amounts <> [])
    by (vm_compute; discriminate).
  split; [exact H1|]. split; [exact H2|].
  exact (@total_due_populated ascii_tables numeric_dates fee_text fee_amounts H1 H2).
Defined.

(** C5, counterexample: a tax line before a subtotal line; the subtotal
    candidate comes out first. *)
Lemma subtotal_sorts_before_tax :
  (exists l, @find_amounts_with_context ascii_tables tax_first_text = Ok l /\
             map c_label l = [Some Subtotal; Some Tax]) /\
  ~ (forall (U : Unicode) (text : str) (l : list candidate),
       @find_amounts_with_context U text = Ok l ->
       nondecreasing (map spec_rank l) = true).
Proof.
  split.
  - vm_compute. eexists. split; reflexivity.
  - intros H.
    destruct (@find_amounts_with_context ascii_tables tax_first_text) as [l|e] eqn:E.
    + specialize (H ascii_tables tax_first_text l E).
      vm_compute in E. injection E as <-. vm_compute in H. discriminate.
    + vm_compute in E. discriminate.
Qed.

(** C6, counterexample: two dates near the word issue; the slot ends with
    the second one. *)
Lemma later_date_overwrites :
  (exists labels,
     @parse_dates_and_labels ascii_tables numeric_dates two_issues_text = Ok labels /\
     issue_date labels = Some (u"2025-04-03") /\
     first_for Issue (@assignments ascii_tables numeric_dates two_issues_text) =
       Some (u"2025-02-01")) /\
  ~ (forall (U : Unicode) (parse : date_order -> str -> option datetime)
            (text : str) (labels : date_labels),
       @parse_dates_and_labels U parse text = Ok labels ->
       issue_date labels = first_for Issue (@assignments U parse text) /\
       due_date labels = first_for Due (@assignments U parse text) /\
       delivery_date labels = first_for Delivery (@assignments U parse text)).
Proof.
  split.
  - vm_compute. eexists. repeat split.
  - intros H.
    destruct (@parse_dates_and_labels ascii_tables numeric_dates two_issues_text)
      as [labels|e] eqn:E.
    + destruct (H ascii_tables numeric_dates two_issues_text labels E) as [H1 _].
      vm_compute in E. injection E as <-. vm_compute in H1. discriminate.
    + vm_compute in E. discriminate.
Qed.

(** C7, witness: ["2025-12-01"] is the twelfth of January day-first and the
    first of December month-first; the two disagree, the span has the ISO
    shape, and the day-first date is the result. *)
Lemma iso_span_witness :
  numeric_dates DMY (u"2025-12-01") = Some (Datetime 2025 1 12 0 0 0 0) /\
  numeric_dates MDY (u"2025-12-01") = Some (Datetime 2025 12 1 0 0 0 0) /\
  @choose ascii_tables numeric_dates (u"2025-12-01") =
    Ok (Some (Datetime 2025 1 12 0 0 0 0)) /\
  @parse_dates_and_labels ascii_tables numeric_dates (u"2025-12-01") =
    Ok (DateLabels None None None [Some (u"2025-01-12")]).
Proof.
  destruct (@iso_span_read_day_first ascii_tables numeric_dates) as (H1 & _ & H3).
  split; [reflexivity|]. split; [reflexivity|]. split.
  - apply (H1 (u"2025-12-01") (Datetime 2025 1 12 0 0 0 0)
              (Datetime 2025 12 1 0 0 0 0)); reflexivity.
  - apply (H3 (Datetime 2025 1 12 0 0 0 0)); reflexivity.
Defined.

(** C8, witness: the bare quantity 2 is dropped and the fee is kept. *)
Lemma small_amounts_witness :
  exists d,
    @extract_fields ascii_tables numeric_dates quantity_text = Ok d /\
    map i_raw (items_of d) = [u"$25"] /\
    Forall (fun it => plausible (i_amount it) (i_label it) (i_currency it))
      (items_of d).
Proof.
  assert (H : exists d,
            @extract_fields ascii_tables numeric_dates quantity_text = Ok d /\
            map i_raw (items_of d) = [u"$25"])
    by (vm_compute; eexists; split; reflexivity).
  destruct H as (d & H & Hraw). exists d. split; [exact H|]. split; [exact Hraw|].
  exact (@small_amounts_filtered ascii_tables numeric_dates quantity_text d H).
Defined.

(** * Further properties *)

(** ** Stripping and splitting *)

Module StripFacts.
Import Str.

Lemma lstrip_fixed c t : isspace c = false -> lstrip (c :: t) = c :: t.
Proof. intros H. simpl. rewrite H. reflexivity. Qed.

Lemma lstrip_head s :
  lstrip s = [] \/ exists c t, lstrip s = c :: t /\ isspace c = false.
Proof.
  induction s as [|c s IH]; simpl; [auto|].
  destruct (isspace c) eqn:E; [exact IH|]. right. eauto.
Qed.

Lemma lstrip_split s :
  exists before, s = before ++ lstrip s /\ forallb isspace before = true.
Proof.
  induction s as [|c s (before & IH & Hb)]; simpl.
  - exists []. auto.
  - destruct (isspace c) eqn:E.
    + exists (c :: before). simpl. rewrite E, Hb. split; [congruence|reflexivity].
    + exists []. auto.
Qed.

Lemma lstrip_blank_app before s :
  forallb isspace before = true -> lstrip (before ++ s) = lstrip s.
Proof.
  induction before as [|c before IH]; simpl; [reflexivity|].
  intros H. apply andb_true_iff in H as [-> H]. auto.
Qed.

Lemma lstrip_app_last l c :
  isspace c = false -> lstrip (l ++ [c]) = lstrip l ++ [c].
Proof.
  intros Hc. induction l as [|x l IH]; simpl.
  - rewrite Hc. reflexivity.
  - destruct (isspace x); [exact IH|reflexivity].
Qed.

Lemma lstrip_keeps_tail x c t :
  isspace c = false -> exists x', lstrip (x ++ c :: t) = x' ++ c :: t.
Proof.
  intros Hc. induction x as [|a x IH]; simpl.
  - rewrite Hc. exists []. reflexivity.
  - destruct (isspace a); [exact IH|]. exists (a :: x). reflexivity.
Qed.

Lemma rstrip_cons c t : isspace c = false -> rstrip (c :: t) = c :: rstrip t.
Proof.
  intros Hc. unfold rstrip. simpl. rewrite (lstrip_app_last _ _ Hc).
  rewrite rev_app_distr. reflexivity.
Qed.

Lemma rstrip_split s :
  exists after, s = rstrip s ++ after /\ forallb isspace after = true.
Proof.
  unfold rstrip. destruct (lstrip_split (rev s)) as (before & E & Hb).
  exists (rev before). split.
  - rewrite <- rev_app_distr, <- E, rev_involutive. reflexivity.
  - rewrite forallb_forall in *. intros x Hx. apply Hb, in_rev, Hx.
Qed.

Lemma rstrip_blank_app s after :
  forallb isspace after = true -> rstrip (s ++ after) = rstrip s.
Proof.
  intros H. unfold rstrip. rewrite rev_app_distr, lstrip_blank_app; [reflexivity|].
  rewrite forallb_forall in *. intros x Hx. apply H, in_rev, Hx.
Qed.

Lemma rstrip_last s :
  rstrip s = [] \/ exists t c, rstrip s = t ++ [c] /\ isspace c = false.
Proof.
  unfold rstrip. destruct (lstrip_head (rev s)) as [->|(c & t & -> & Hc)].
  - auto.
  - right. exists (rev t), c. auto.
Qed.

Lemma rstrip_fixed x t c : isspace c = false -> rstrip (x ++ t ++ [c]) = x ++ t ++ [c].
Proof.
  intros Hc. unfold rstrip. rewrite !rev_app_distr. simpl. rewrite Hc.
  simpl. rewrite !rev_app_distr, !rev_involutive. simpl.
  rewrite <- app_assoc. reflexivity.
Qed.

(** A stripped string is empty or begins and ends with a character that is
    no whitespace. *)
Lemma strip_ends s :
  strip s = [] \/
  (exists c t, strip s = c :: t /\ isspace c = false) /\
  (exists t c, strip s = t ++ [c] /\ isspace c = false).
Proof.
  unfold strip. destruct (lstrip_head s) as [->|(c & t & -> & Hc)].
  - left. reflexivity.
  - right. split.
    + rewrite (rstrip_cons _ _ Hc). eauto.
    + destruct (rstrip_last (c :: t)) as [E|H]; [|exact H].
      rewrite (rstrip_cons _ _ Hc) in E. discriminate.
Qed.

Lemma strip_idempotent s : strip (strip s) = strip s.
Proof.
  destruct (strip_ends s) as [->|((c & t & E & Hc) & (t' & c' & E' & Hc'))].
  - reflexivity.
  - unfold strip at 1. rewrite E at 1. rewrite (lstrip_fixed _ _ Hc).
    rewrite <- E, E'. apply (rstrip_fixed [] t' c' Hc').
Qed.

Lemma strip_split s :
  exists before after,
    s = before ++ strip s ++ after /\
    forallb isspace before = true /\ forallb isspace after = true.
Proof.
  destruct (lstrip_split s) as (before & E & Hb).
  destruct (rstrip_split (lstrip s)) as (after & E' & Ha).
  exists before, after. split; [|auto]. unfold strip.
  rewrite <- E'. exact E.
Qed.

Lemma strip_forallb (P : char -> bool) s :
  forallb P s = true -> forallb P (strip s) = true.
Proof.
  destruct (strip_split s) as (before & after & E & _). intros H.
  rewrite E, !forallb_app in H.
  apply andb_true_iff in H as [_ H]. apply andb_true_iff in H as [H _]. exact H.
Qed.

(** Whitespace around a string does not change what [strip] gives. *)
Lemma strip_padding before s after :
  forallb isspace before = true -> forallb isspace after = true ->
  strip (before ++ s ++ after) = strip s.
Proof.
  intros Hb Ha. unfold strip. rewrite (lstrip_blank_app _ _ Hb).
  destruct (lstrip_split s) as (b' & E & Hb').
  replace (s ++ after) with (b' ++ lstrip s ++ after)
    by (rewrite app_assoc, <- E; reflexivity).
  rewrite (lstrip_blank_app _ _ Hb').
  destruct (lstrip_head s) as [E0|(c & t & E0 & Hc)]; rewrite E0.
  - simpl. rewrite (StrFacts.lstrip_blank _ Ha). reflexivity.
  - change ((c :: t) ++ after) with (c :: (t ++ after)).
    rewrite (lstrip_fixed _ _ Hc).
    change (c :: t ++ after) with ((c :: t) ++ after).
    apply rstrip_blank_app, Ha.
Qed.

(** A stripped, non-empty string at the end of a text stays at its end. *)
Lemma strip_keeps_end x ln :
  ln <> [] -> strip ln = ln -> exists x', strip (x ++ ln) = x' ++ ln.
Proof.
  intros Hne Hs.
  destruct (strip_ends ln) as [E|((c & t & E & Hc) & (t' & c' & E' & Hc'))];
    rewrite Hs in *; [congruence|].
  unfold strip. destruct (lstrip_keeps_tail x c t Hc) as [x' Hx].
  rewrite <- E in Hx. rewrite Hx. exists x'. rewrite E'.
  apply (rstrip_fixed x' t' c' Hc').
Qed.

Lemma splitlines_go_chars (P : char -> bool) n : forall s cur ln,
  List.length s <= n ->
  (forall c, In c s -> is_linebreak c = false -> P c = true) ->
  forallb P cur = true ->
  In ln (splitlines_go s cur) -> forallb P ln = true.
Proof.
  assert (Hrev : forall cur, forallb P cur = true -> forallb P (rev cur) = true).
  { intros cur H. rewrite forallb_forall in *. intros x Hx. apply H, in_rev, Hx. }
  induction n as [|n IH]; intros s cur ln Hlen Hs Hcur.
  - destruct s; [|simpl in Hlen; lia]. simpl.
    destruct cur; [intros []|]. intros [<-|[]]. apply Hrev, Hcur.
  - destruct s as [|c s]; simpl.
    + destruct cur; [intros []|]. intros [<-|[]]. apply Hrev, Hcur.
    + simpl in Hlen. destruct (is_linebreak c) eqn:Hc.
      * intros [<-|Hin]; [apply Hrev, Hcur|].
        destruct s as [|d s'].
        -- apply (IH [] [] ln); [simpl; lia|intros ? []|reflexivity|exact Hin].
        -- destruct ((c =? 13) && (d =? 10))%N.
           ++ apply (IH s' [] ln); [simpl in Hlen; lia| |reflexivity|exact Hin].
              intros x Hx. apply Hs. right. right. exact Hx.
           ++ apply (IH (d :: s') [] ln); [lia| |reflexivity|exact Hin].
              intros x Hx. apply Hs. right. exact Hx.
      * apply IH; [lia| |].
        -- intros x Hx. apply Hs. right. exact Hx.
        -- simpl. rewrite Hcur, (Hs c (or_introl eq_refl) Hc). reflexivity.
Qed.

Lemma splitlines_chars (P : char -> bool) s ln :
  (forall c, In c s -> is_linebreak c = false -> P c = true) ->
  In ln (splitlines s) -> forallb P ln = true.
Proof.
  intros Hs. apply (splitlines_go_chars P (List.length s)); auto.
Qed.

End StripFacts.

(** ** Deduplication and sorting, by keys *)

Section KeyFacts.

Variables A K : Type.
Variable eqk : K -> K -> bool.
Variable key : A -> K.
Hypothesis eqk_refl : forall k, eqk k k = true.
Hypothesis eqk_sym : forall k1 k2, eqk k1 k2 = eqk k2 k1.

Lemma dedup_go_represented l : forall keys x,
  In x l ->
  (exists k, In k keys /\ eqk (key x) k = true) \/
  represented eqk key x (dedup_go eqk key l keys).
Proof.
  induction l as [|h l IH]; intros keys x; simpl; [intros []|].
  destruct (existsb (eqk (key h)) keys) eqn:E.
  - intros [<-|Hx]; [|apply IH, Hx].
    left. apply existsb_exists in E. exact E.
  - intros [<-|Hx].
    + right. exists h. split; [left; reflexivity|apply eqk_refl].
    + destruct (IH (key h :: keys) x Hx) as [(k & [<-|Hk] & Hkx)|(y & Hy & Hxy)].
      * right. exists h. split; [left; reflexivity|exact Hkx].
      * left. eauto.
      * right. exists y. split; [right; exact Hy|exact Hxy].
Qed.

Lemma dedup_by_represented l x :
  In x l -> represented eqk key x (dedup_by eqk key l).
Proof.
  intros Hx. destruct (dedup_go_represented l [] x Hx) as [(k & [] & _)|H].
  exact H.
Qed.

Lemma dedup_go_distinct l : forall keys,
  distinct_keys eqk key (dedup_go eqk key l keys) /\
  Forall (fun y => forall k, In k keys -> eqk (key y) k = false)
    (dedup_go eqk key l keys).
Proof.
  unfold distinct_keys.
  induction l as [|h l IH]; intros keys; simpl.
  - split; constructor.
  - destruct (existsb (eqk (key h)) keys) eqn:E; [apply IH|].
    destruct (IH (key h :: keys)) as [Hd Hk]. split.
    + constructor; [|exact Hd].
      eapply Forall_impl; [|exact Hk]. cbv beta. intros y Hy.
      rewrite eqk_sym. apply Hy. left. reflexivity.
    + constructor.
      * intros k Hin. destruct (eqk (key h) k) eqn:Ek; [|reflexivity].
        rewrite <- E. symmetry. apply existsb_exists. eauto.
      * eapply Forall_impl; [|exact Hk]. cbv beta. intros y Hy k Hin.
        apply Hy. right. exact Hin.
Qed.

Lemma dedup_by_distinct l : distinct_keys eqk key (dedup_by eqk key l).
Proof. apply dedup_go_distinct. Qed.

Lemma insert_by_distinct (le : A -> A -> bool) x l :
  Forall (fun y => eqk (key x) (key y) = false) l ->
  distinct_keys eqk key l ->
  distinct_keys eqk key (insert_by le x l).
Proof.
  unfold distinct_keys. induction l as [|y l IH]; intros Hx Hl; simpl.
  - constructor; constructor.
  - destruct (le x y); [constructor; assumption|].
    inversion Hx as [|? ? Hxy Hx']; subst. inversion Hl as [|? ? Hy Hl']; subst.
    constructor; [|apply IH; assumption].
    apply Forall_forall. intros z Hz. apply insert_by_in in Hz as [->|Hz].
    + rewrite eqk_sym. exact Hxy.
    + rewrite Forall_forall in Hy. apply Hy, Hz.
Qed.

Lemma distinct_keys_in l x y :
  distinct_keys eqk key l -> In x l -> In y l ->
  eqk (key x) (key y) = true -> x = y.
Proof.
  unfold distinct_keys. induction 1 as [|a l Ha _ IH]; [intros []|].
  rewrite Forall_forall in Ha.
  intros [<-|Hx] [<-|Hy] E; auto.
  - rewrite (Ha _ Hy) in E. discriminate.
  - rewrite eqk_sym, (Ha _ Hx) in E. discriminate.
Qed.

Lemma sort_by_distinct (le : A -> A -> bool) l :
  distinct_keys eqk key l -> distinct_keys eqk key (sort_by le l).
Proof.
  unfold distinct_keys. induction 1 as [|x l Hx _ IH]; simpl; [constructor|].
  apply insert_by_distinct; [|exact IH].
  apply Forall_forall. intros y Hy. apply sort_by_in in Hy.
  rewrite Forall_forall in Hx. apply Hx, Hy.
Qed.

Lemma filter_distinct (f : A -> bool) l :
  distinct_keys eqk key l -> distinct_keys eqk key (filter f l).
Proof.
  unfold distinct_keys. induction 1 as [|x l Hx _ IH]; simpl; [constructor|].
  destruct (f x); [|exact IH]. constructor; [|exact IH].
  apply Forall_forall. intros y Hy. apply filter_In in Hy as [Hy _].
  rewrite Forall_forall in Hx. apply Hx, Hy.
Qed.

End KeyFacts.

(** The keys of the two deduplications compare by equalities that are
    reflexive and symmetric. *)
Module KeyEq.

Lemma float_eqb_refl a : Float.eqb a a = true.
Proof.
  unfold Float.eqb. destruct (Float.ord a). rewrite !Z.eqb_refl. reflexivity.
Qed.

Lemma float_eqb_sym a c : Float.eqb a c = Float.eqb c a.
Proof.
  unfold Float.eqb. destruct (Float.ord a), (Float.ord c).
  rewrite (Z.eqb_sym z z1), (Z.eqb_sym z0 z2). reflexivity.
Qed.

Lemma str_eqb_refl a : Str.eqb a a = true.
Proof. unfold Str.eqb. destruct (list_eq_dec N.eq_dec a a); congruence. Qed.

Lemma str_eqb_sym a c : Str.eqb a c = Str.eqb c a.
Proof.
  unfold Str.eqb.
  destruct (list_eq_dec N.eq_dec a c), (list_eq_dec N.eq_dec c a); congruence.
Qed.

Lemma candidate_key_eqb_refl k : candidate_key_eqb k k = true.
Proof.
  destruct k as [[[a c] r] x]. simpl.
  rewrite float_eqb_refl, !str_eqb_refl.
  destruct c as [c|]; simpl; rewrite ?str_eqb_refl; reflexivity.
Qed.

Lemma candidate_key_eqb_sym k1 k2 : candidate_key_eqb k1 k2 = candidate_key_eqb k2 k1.
Proof.
  destruct k1 as [[[a1 c1] r1] x1], k2 as [[[a2 c2] r2] x2]. simpl.
  rewrite (float_eqb_sym a1 a2), (str_eqb_sym r1 r2), (str_eqb_sym x1 x2).
  destruct c1, c2; simpl; rewrite ?(str_eqb_sym s s0); reflexivity.
Qed.

Lemma item_key_eqb_refl k : item_key_eqb k k = true.
Proof.
  unfold item_key_eqb. rewrite float_eqb_refl, str_eqb_refl. reflexivity.
Qed.

Lemma item_key_eqb_sym k1 k2 : item_key_eqb k1 k2 = item_key_eqb k2 k1.
Proof.
  unfold item_key_eqb.
  rewrite (float_eqb_sym (fst k1)), (str_eqb_sym (snd k1)). reflexivity.
Qed.

End KeyEq.

(** ** What a match consumes *)

Module ReadFacts.
Import Re.

Section Reads.

Variable p : Str.char -> bool.
Variable A : Type.

Lemma reads_refl st : reads p False st st.
Proof. exists []. split; [reflexivity|intros []]. Qed.

Lemma reads_trans (m1 m2 m3 : Prop) st1 st2 st3 :
  (m3 -> m1 \/ m2) ->
  reads p m1 st1 st2 -> reads p m2 st2 st3 -> reads p m3 st1 st3.
Proof.
  intros Hm (w1 & E1 & H1) (w2 & E2 & H2). exists (w1 ++ w2). split.
  - rewrite E1, E2, app_assoc. reflexivity.
  - intros H3. rewrite existsb_app. apply orb_true_iff.
    destruct (Hm H3); [left|right]; auto.
Qed.

Lemma reads_weaken (m1 m2 : Prop) st st' :
  (m2 -> m1) -> reads p m1 st st' -> reads p m2 st st'.
Proof. intros Hm (w & E & H). exists w. split; auto. Qed.

Lemma rep_loop_reads (body : state -> (state -> option A) -> option A)
  (must : Prop) lo hi (k : state -> option A) :
  (forall st k' a, body st k' = Some a ->
     exists st', k' st' = Some a /\ reads p must st st') ->
  forall fuel i st a,
    rep_loop body lo hi k fuel i st = Some a ->
    exists st', k st' = Some a /\ reads p (i < lo /\ must) st st'.
Proof.
  intros Hbody.
  assert (Hstop : forall i st a,
            (if Nat.leb lo i then k st else None) = Some a ->
            exists st', k st' = Some a /\ reads p (i < lo /\ must) st st').
  { intros i st a H. destruct (Nat.leb_spec lo i) as [Hle|Hlt]; [|discriminate].
    exists st. split; [exact H|].
    apply (reads_weaken False); [intros [? _]; lia|apply reads_refl]. }
  induction fuel as [|fuel IH]; intros i st a; simpl.
  - apply Hstop.
  - destruct (below i hi); [|apply Hstop].
    destruct (body st _) as [a'|] eqn:Hb; [|apply Hstop].
    intros [= ->].
    apply Hbody in Hb as (st1 & Hk1 & Hr1).
    destruct (Nat.ltb (idx st) (idx st1)); [|discriminate].
    apply IH in Hk1 as (st' & Hk & Hr).
    exists st'. split; [exact Hk|].
    eapply reads_trans; [|exact Hr1|exact Hr]. tauto.
Qed.

Lemma m_reads (r : regex) :
  forall st (k : state -> option A) a,
    m r st k = Some a ->
    exists st', k st' = Some a /\ reads p (needs p r) st st'.
Proof.
  induction r as [|q|r1 IH1 r2 IH2|r1 IH1 r2 IH2|r IH lo hi|g' r IH|w|];
    intros st k a; cbn [m needs].
  - intros H. exists st. split; [exact H|apply reads_refl].
  - destruct (rest st) as [|c rest'] eqn:E; [discriminate|].
    destruct (q c) eqn:Hq; [|discriminate]. intros H.
    eexists. split; [exact H|]. exists [c]. simpl. split; [exact E|].
    intros Hp. rewrite (Hp c Hq). reflexivity.
  - intros H. apply IH1 in H as (st1 & H & Hr1).
    apply IH2 in H as (st2 & H & Hr2).
    exists st2. split; [exact H|].
    eapply reads_trans; [|exact Hr1|exact Hr2]. tauto.
  - destruct (m r1 st k) as [a'|] eqn:H1.
    + intros [= ->]. apply IH1 in H1 as (st1 & H & Hr1).
      exists st1. split; [exact H|]. eapply reads_weaken; [|exact Hr1]. tauto.
    + intros H. apply IH2 in H as (st2 & H & Hr2).
      exists st2. split; [exact H|]. eapply reads_weaken; [|exact Hr2]. tauto.
  - intros H. eapply rep_loop_reads in H; [|exact IH].
    destruct H as (st' & H & Hr). exists st'. split; [exact H|].
    eapply reads_weaken; [|exact Hr]. tauto.
  - intros H. apply IH in H as (st1 & H & Hr1).
    eexists. split; [exact H|]. exact Hr1.
  - destruct (xorb _ _); [|discriminate]. intros H.
    exists st. split; [exact H|apply reads_refl].
  - destruct (rest st) as [|c [|c' rest']]; try discriminate.
    + intros H. exists st. split; [exact H|apply reads_refl].
    + destruct (c =? 10)%N; [|discriminate]. intros H.
      exists st. split; [exact H|apply reads_refl].
Qed.

End Reads.

(** A pattern that needs a character of [p] finds nothing in a text that
    has none. *)
Lemma search_from_needs p r : needs p r ->
  forall s q i, existsb p s = false -> search_from r q s i = None.
Proof.
  intros Hn. induction s as [|c s IH]; intros q i Hs; simpl.
  - destruct (match_here r q [] i) as [st|] eqn:H; [|reflexivity].
    apply (m_reads p) in H as (st' & _ & w & E & Hw). simpl in E.
    destruct w; [|discriminate]. specialize (Hw Hn). discriminate.
  - simpl in Hs. apply orb_false_iff in Hs as [Hc Hs].
    destruct (match_here r q (c :: s) i) as [st|] eqn:H; [|apply IH, Hs].
    apply (m_reads p) in H as (st' & _ & w & E & Hw). simpl in E.
    specialize (Hw Hn).
    assert (Hall : existsb p (w ++ rest st') = false).
    { rewrite <- E. simpl. rewrite Hc, Hs. reflexivity. }
    rewrite existsb_app, Hw in Hall. discriminate.
Qed.

Lemma search_needs p r s :
  needs p r -> existsb p s = false -> search r s = None.
Proof.
  intros Hn Hs. unfold search. rewrite (search_from_needs p r Hn s None 0 Hs).
  reflexivity.
Qed.

Lemma finditer_needs p r s :
  needs p r -> existsb p s = false -> finditer r s = [].
Proof.
  intros Hn Hs. unfold finditer. simpl.
  rewrite (search_from_needs p r Hn s None 0 Hs). reflexivity.
Qed.

End ReadFacts.

(** ** More about the extractor *)

Section Further.

Context {U : Unicode}.
Variable parse : date_order -> str -> option datetime.

(** *** Lines *)

Lemma text_to_lines_in text ln :
  In ln (text_to_lines text) ->
  ln <> [] /\ exists l0, In l0 (Str.splitlines text) /\ ln = Str.strip l0.
Proof.
  unfold text_to_lines. intros H. apply filter_In in H as [H Hne].
  apply in_map_iff in H as (l0 & <- & Hl0). split; [|eauto].
  intros E. rewrite E in Hne. discriminate.
Qed.

Lemma text_to_lines_chars (P : Str.char -> bool) text ln :
  forallb P text = true -> In ln (text_to_lines text) -> forallb P ln = true.
Proof.
  intros HP H. apply text_to_lines_in in H as (_ & l0 & Hl0 & ->).
  apply StripFacts.strip_forallb.
  apply (StripFacts.splitlines_chars P text); [|exact Hl0].
  intros c Hc _. rewrite forallb_forall in HP. apply HP, Hc.
Qed.

Lemma text_to_lines_line text ln :
  In ln (text_to_lines text) ->
  ln <> [] /\ Str.strip ln = ln /\
  forallb (fun c => negb (Str.is_linebreak c)) ln = true.
Proof.
  intros H.
  destruct (text_to_lines_in text ln H) as (Hne & l0 & Hl0 & ->).
  split; [exact Hne|]. split; [apply StripFacts.strip_idempotent|].
  apply StripFacts.strip_forallb.
  apply (StripFacts.splitlines_chars _ text); [|exact Hl0].
  intros c _ Hc. rewrite Hc. reflexivity.
Qed.

(** X1. Every line that [text_to_lines] returns is non-empty, has no
    whitespace at either end (stripping it again changes nothing) and
    contains no line boundary. *)
Theorem text_to_lines_trimmed text :
  Forall (fun ln => ln <> [] /\ Str.strip ln = ln /\
                    forallb (fun c => negb (Str.is_linebreak c)) ln = true)
    (text_to_lines text).
Proof.
  apply Forall_forall. intros ln H. exact (text_to_lines_line text ln H).
Qed.

(** *** Amount tokens *)

Lemma strip_chars_idempotent a c s :
  strip_char a (strip_char c (strip_char a (strip_char c s))) =
  strip_char a (strip_char c s).
Proof.
  unfold strip_char. induction s as [|x s IH]; [reflexivity|]. simpl.
  destruct (x =? c)%N eqn:Ec; simpl; [exact IH|].
  destruct (x =? a)%N eqn:Ea; simpl; [exact IH|].
  rewrite Ec. simpl. rewrite Ea. simpl. rewrite IH. reflexivity.
Qed.

(** X2. Blanks and no-break spaces in a token do not matter to
    [parse_amount_text]: the token without them parses to the same result;
    a token of blanks only gives [None], like the empty token. *)
Theorem parse_amount_text_blanks amt :
  parse_amount_text (strip_char 32%N (strip_char 160%N amt)) =
  parse_amount_text amt.
Proof.
  rewrite !parse_amount_text_spec.
  set (t := strip_char 32%N (strip_char 160%N amt)).
  assert (Ht : strip_char 32%N (strip_char 160%N t) = t).
  { apply strip_chars_idempotent. }
  destruct t as [|c t'] eqn:Et.
  - destruct amt as [|c0 amt']; [reflexivity|].
    unfold parse_amount_amended. fold (strip_char 160%N (c0 :: amt')).
    change (strip_char 32%N (strip_char 160%N (c0 :: amt'))) with t.
    rewrite Et. reflexivity.
  - destruct amt as [|c0 amt']; [discriminate|].
    unfold parse_amount_amended. rewrite Ht.
    change (strip_char 32%N (strip_char 160%N (c0 :: amt'))) with t.
    rewrite Et. reflexivity.
Qed.

(** *** Totals *)

Lemma last_labelled_none l amounts :
  last_labelled l amounts = None <->
  forall c, In c amounts -> c_label c <> Some l.
Proof.
  unfold last_labelled. split.
  - intros H c Hc E. apply in_rev in Hc.
    pose proof (find_none _ _ H c Hc) as Hf. unfold has_label in Hf.
    rewrite E in Hf. destruct l; discriminate.
  - intros H. destruct (find _ _) as [c|] eqn:E; [|reflexivity].
    apply find_some in E as [Hc Hl]. apply in_rev in Hc.
    exfalso. apply (H c Hc). unfold has_label in Hl.
    destruct (c_label c) as [l'|]; [|discriminate].
    destruct l, l'; try discriminate; reflexivity.
Qed.

Lemma last_labelled_in l amounts c :
  last_labelled l amounts = Some c -> In c amounts /\ c_label c = Some l.
Proof.
  unfold last_labelled. intros E. apply find_some in E as [Hc Hl].
  apply in_rev in Hc. split; [exact Hc|]. unfold has_label in Hl.
  destruct (c_label c) as [l'|]; [|discriminate].
  destruct l, l'; try discriminate; reflexivity.
Qed.

(** X3. [find_totals] never raises. The subtotal it returns is [None]
    exactly when no candidate is labelled subtotal, the tax exactly when
    none is labelled tax, and total_due exactly when the list is empty; on
    the empty list all three are [None]. *)
Theorem find_totals_absent amounts :
  exists t, find_totals amounts = Ok t /\
    (subtotal t = None <->
     forall c, In c amounts -> c_label c <> Some Subtotal) /\
    (tax t = None <-> forall c, In c amounts -> c_label c <> Some Tax) /\
    (total_due t = None <-> amounts = []).
Proof.
  eexists. split; [apply find_totals_eq|]. cbn [subtotal tax total_due].
  split; [|split].
  - rewrite <- last_labelled_none.
    destruct (last_labelled Subtotal amounts); simpl; split; congruence.
  - rewrite <- last_labelled_none.
    destruct (last_labelled Tax amounts); simpl; split; congruence.
  - destruct amounts as [|a amounts]; [split; reflexivity|].
    split; [|discriminate]. intros H. exfalso.
    destruct (last_labelled TotalDue (a :: amounts)); [discriminate|].
    destruct (sort_by_head _ by_magnitude (a :: amounts)
                by_magnitude_total by_magnitude_trans) as (h & tl & Hs & _);
      [discriminate|].
    rewrite Hs in H. discriminate.
Qed.

(** *** Provenance of the candidates *)

Lemma slice_occurs a c s : occurs_in (Str.slice a c s) s.
Proof.
  unfold Str.slice. exists (firstn a s), (skipn (c - a) (skipn a s)).
  rewrite firstn_skipn, firstn_skipn. reflexivity.
Qed.

Lemma strip_occurs s : occurs_in (Str.strip s) s.
Proof.
  destruct (StripFacts.strip_split s) as (before & after & E & _).
  exists before, after. exact E.
Qed.

Lemma occurs_in_trans a c s : occurs_in a c -> occurs_in c s -> occurs_in a s.
Proof.
  intros (b1 & a1 & ->) (b2 & a2 & ->). exists (b2 ++ b1), (a1 ++ a2).
  rewrite <- !app_assoc. reflexivity.
Qed.

Lemma scan_match_shape lines i ln mt c :
  scan_match lines i ln mt = Ok (Some c) ->
  c_line c = ln /\ c_label c = guess_label ln /\
  c_raw c = Str.strip (Re.group0 ln mt) /\
  (c_context c = Str.strip ln \/
   exists before, c_context c = Str.strip (before ++ u" | " ++ ln)).
Proof.
  unfold scan_match.
  destruct (_ && _ && _ && _); [discriminate|].
  destruct (Re.group ln mt 3); [|discriminate].
  destruct (parse_amount_text _); [|discriminate].
  destruct (detect_currency _ _ _); [|discriminate]. cbn [bind].
  destruct (Nat.ltb 0 i).
  - destruct (index lines (i - 1)) as [before|]; [|discriminate]. cbn [bind].
    destruct (_ && _ && _); [discriminate|]. intros [= <-]. simpl.
    repeat split. destruct (negb _); eauto.
  - cbn [bind]. destruct (_ && _ && _); [discriminate|]. intros [= <-]. simpl.
    auto.
Qed.

Lemma scan_in text found c :
  scan text = Ok found -> In c found ->
  exists i mt,
    In (c_line c) (text_to_lines text) /\
    scan_match (text_to_lines text) i (c_line c) mt = Ok (Some c).
Proof.
  unfold scan. intros H Hc.
  destruct (collect_all_in _ _ _ _ _ _ H Hc) as ([i ln] & r & Hp & Hr & Hcr).
  simpl in Hr.
  destruct (collect_in _ _ _ _ _ _ Hr Hcr) as (mt & _ & Hsm).
  pose proof (scan_match_shape _ _ _ _ _ Hsm) as (El & _).
  exists i, mt. rewrite El. split; [|exact Hsm].
  unfold enumerate in Hp. apply in_combine_r in Hp. exact Hp.
Qed.

(** X4. Every candidate that [find_amounts_with_context] returns comes from
    a line of [text_to_lines]: that line is its ["line"], its raw text
    occurs in the line, its context ends with the line, and its label is
    the one the line's words give. *)
Theorem candidates_come_from_lines text :
  exists amounts,
    find_amounts_with_context text = Ok amounts /\
    Forall (fun c => In (c_line c) (text_to_lines text) /\
                     occurs_in (c_raw c) (c_line c) /\
                     ends_with (c_line c) (c_context c) /\
                     c_label c = guess_label (c_line c))
      amounts.
Proof.
  unfold find_amounts_with_context.
  destruct (scan_ok text) as (found & Hf & _). rewrite Hf. cbn [bind].
  eexists. split; [reflexivity|].
  apply Forall_forall. intros c Hc. apply sort_by_in, dedup_by_in in Hc.
  destruct (scan_in _ _ _ Hf Hc) as (i & mt & Hl & Hsm).
  destruct (text_to_lines_line _ _ Hl) as (Hne & Hs & _).
  destruct (scan_match_shape _ _ _ _ _ Hsm) as (_ & Hlab & Hraw & Hctx).
  split; [exact Hl|]. split; [|split; [|exact Hlab]].
  - rewrite Hraw. eapply occurs_in_trans; [apply strip_occurs|apply slice_occurs].
  - destruct Hctx as [->|(before & ->)].
    + rewrite Hs. exists []. reflexivity.
    + destruct (StripFacts.strip_keeps_end (before ++ u" | ") _ Hne Hs) as [x' Hx].
      rewrite <- app_assoc in Hx. exists x'. exact Hx.
Qed.

(** *** Deduplication *)

(** X5. Exactly one candidate survives per key
    [(amount, currency, raw, context[:60])]: the candidates that
    [find_amounts_with_context] returns have pairwise different keys, and
    every scanned candidate has its key among them. *)
Theorem candidates_one_per_key text :
  exists found amounts,
    scan text = Ok found /\
    find_amounts_with_context text = Ok amounts /\
    distinct_keys candidate_key_eqb candidate_key amounts /\
    Forall (fun c => represented candidate_key_eqb candidate_key c amounts)
      found.
Proof.
  unfold find_amounts_with_context.
  destruct (scan_ok text) as (found & Hf & _). rewrite Hf. cbn [bind].
  exists found. eexists. split; [reflexivity|]. split; [reflexivity|]. split.
  - apply sort_by_distinct; [apply KeyEq.candidate_key_eqb_sym|].
    apply dedup_by_distinct. apply KeyEq.candidate_key_eqb_sym.
  - apply Forall_forall. intros c Hc.
    destruct (dedup_by_represented _ _ candidate_key_eqb candidate_key
                KeyEq.candidate_key_eqb_refl found c Hc) as (y & Hy & E).
    exists y. split; [apply sort_by_in; exact Hy|exact E].
Qed.

Lemma collect_complete {A B} (f : A -> result (option B)) l r x y :
  collect f l = Ok r -> In x l -> f x = Ok (Some y) -> In y r.
Proof.
  revert r. induction l as [|h l IH]; intros r; simpl; [intros _ []|].
  destruct (f h) as [o|] eqn:Hf; simpl; [|discriminate].
  destruct (collect f l) as [r'|]; simpl; [|discriminate].
  intros [= <-] [<-|Hx] Hy.
  - rewrite Hy in Hf. injection Hf as <-. left. reflexivity.
  - destruct o; [right|]; eapply IH; eauto.
Qed.

Lemma make_item_some a :
  exists desc,
    make_item a =
    Ok (Some (Item (c_amount a) (c_currency a) (c_raw a) desc (c_label a)
                (c_context a))).
Proof.
  unfold make_item. destruct (describe_ok a) as [desc ->]. simpl. eauto.
Qed.

(** Every surviving candidate is represented among the line items by an
    item with an equal amount. *)
Lemma clean_represented clean items a :
  collect make_item clean = Ok items -> In a clean ->
  exists it, In it (dedup_by item_key_eqb item_key items) /\
             Float.eqb (c_amount a) (i_amount it) = true.
Proof.
  intros Hi Ha. destruct (make_item_some a) as [desc Hm].
  pose proof (collect_complete _ _ _ _ _ Hi Ha Hm) as Hin.
  destruct (dedup_by_represented _ _ item_key_eqb item_key
              KeyEq.item_key_eqb_refl items _ Hin) as (y & Hy & E).
  exists y. split; [exact Hy|].
  unfold item_key_eqb, item_key in E. simpl in E.
  apply andb_true_iff in E as [E _]. exact E.
Qed.

(** X6. No two line items of a result have both equal amounts and
    descriptions that are equal when lowercased. *)
Theorem items_one_per_key text :
  exists d, extract_fields parse text = Ok d /\
            distinct_keys item_key_eqb item_key (items_of d).
Proof.
  destruct (Str.strip text) as [|c0 t0] eqn:E.
  - exists []. unfold extract_fields. rewrite E. split; [reflexivity|constructor].
  - destruct (extract_fields_shape parse text)
      as (invoice & amounts & t & items & _ & _ & _ & H).
    { rewrite E. discriminate. }
    eexists. split; [exact H|].
    change (items_of _) with (dedup_by item_key_eqb item_key items).
    apply dedup_by_distinct. apply KeyEq.item_key_eqb_sym.
Qed.

(** X7. The totals are taken from the line items: every value that is
    present in the totals of a result is the amount of one of its line
    items. *)
Theorem totals_among_items text :
  exists d, extract_fields parse text = Ok d /\
    forall v, In (Some v) (totals_values (totals_of d)) ->
              exists it, In it (items_of d) /\
                         Float.eqb v (i_amount it) = true.
Proof.
  destruct (Str.strip text) as [|c0 t0] eqn:E.
  - exists []. unfold extract_fields. rewrite E. split; [reflexivity|].
    intros v [H|[H|[H|[]]]]; discriminate.
  - destruct (extract_fields_shape parse text)
      as (invoice & amounts & t & items & _ & Ht & Hi & H).
    { rewrite E. discriminate. }
    eexists. split; [exact H|].
    change (items_of _) with (dedup_by item_key_eqb item_key items).
    change (totals_of _) with t.
    rewrite find_totals_eq in Ht. injection Ht as <-.
    set (clean := filter keep_amount amounts) in *.
    assert (Hfrom : forall v, In (Some v) (totals_values
              (Totals (option_map c_amount (last_labelled Subtotal clean))
                 (option_map c_amount (last_labelled Tax clean))
                 match last_labelled TotalDue clean with
                 | Some c => Some (c_amount c)
                 | None => option_map c_amount
                             (hd_error (sort_by by_magnitude clean))
                 end)) ->
              exists a, In a clean /\ c_amount a = v).
    { intros v. unfold totals_values. cbn [subtotal tax total_due].
      intros [Hv|[Hv|[Hv|[]]]].
      - destruct (last_labelled Subtotal clean) as [a|] eqn:El; [|discriminate].
        injection Hv as <-. apply last_labelled_in in El as [Ha _]. eauto.
      - destruct (last_labelled Tax clean) as [a|] eqn:El; [|discriminate].
        injection Hv as <-. apply last_labelled_in in El as [Ha _]. eauto.
      - destruct (last_labelled TotalDue clean) as [a|] eqn:El.
        + injection Hv as <-. apply last_labelled_in in El as [Ha _]. eauto.
        + destruct (sort_by by_magnitude clean) as [|h tl] eqn:Es; [discriminate|].
          injection Hv as <-. exists h. split; [|reflexivity].
          apply (sort_by_in _ by_magnitude). rewrite Es. left. reflexivity. }
    intros v Hv. destruct (Hfrom v Hv) as (a & Ha & <-).
    apply (clean_represented clean items a Hi Ha).
Qed.

(** X8. No candidate with a currency is lost on the way to the result: for
    every candidate of [find_amounts_with_context] that has a currency, the
    result has a line item with an equal amount. *)
Theorem currency_candidates_kept text :
  exists amounts d,
    find_amounts_with_context (Str.strip text) = Ok amounts /\
    extract_fields parse text = Ok d /\
    Forall (fun c => c_currency c <> None ->
                     exists it, In it (items_of d) /\
                                Float.eqb (c_amount c) (i_amount it) = true)
      amounts.
Proof.
  destruct (Str.strip text) as [|c0 t0] eqn:E.
  - exists [], []. split; [reflexivity|]. unfold extract_fields. rewrite E.
    split; [reflexivity|constructor].
  - destruct (extract_fields_shape parse text)
      as (invoice & amounts & t & items & Ha & _ & Hi & H).
    { rewrite E. discriminate. }
    rewrite E in Ha. exists amounts. eexists. split; [exact Ha|].
    split; [exact H|].
    change (items_of _) with (dedup_by item_key_eqb item_key items).
    apply Forall_forall. intros c Hc Hcur.
    apply (clean_represented (filter keep_amount amounts) items c Hi).
    apply filter_In. split; [exact Hc|].
    unfold keep_amount. destruct (c_currency c); [|congruence].
    simpl. rewrite !andb_false_r. reflexivity.
Qed.

(** *** The order of the line items *)

Lemma insert_by_sorted {A} (le : A -> A -> bool) x l :
  (forall x y, le x y = false -> le y x = true) ->
  (forall x y z, le x y = true -> le y z = true -> le x z = true) ->
  StronglySorted (fun x y => le x y = true) l ->
  StronglySorted (fun x y => le x y = true) (insert_by le x l).
Proof.
  intros Htot Htrans. induction 1 as [|y l Hl IH Hy]; simpl.
  - constructor; constructor.
  - destruct (le x y) eqn:E.
    + constructor; [constructor; assumption|].
      constructor; [exact E|].
      eapply Forall_impl; [|exact Hy]. cbv beta. intros z Hz.
      eapply Htrans; eassumption.
    + constructor; [exact IH|].
      apply Forall_forall. intros z Hz. apply insert_by_in in Hz as [->|Hz].
      * apply Htot, E.
      * rewrite Forall_forall in Hy. apply Hy, Hz.
Qed.

Lemma sort_by_sorted {A} (le : A -> A -> bool) l :
  (forall x y, le x y = false -> le y x = true) ->
  (forall x y z, le x y = true -> le y z = true -> le x z = true) ->
  StronglySorted (fun x y => le x y = true) (sort_by le l).
Proof.
  intros Htot Htrans. induction l as [|x l IH]; simpl; [constructor|].
  apply insert_by_sorted; assumption.
Qed.

Lemma filter_sorted {A} (R : A -> A -> Prop) (f : A -> bool) l :
  StronglySorted R l -> StronglySorted R (filter f l).
Proof.
  induction 1 as [|x l Hl IH Hx]; simpl; [constructor|].
  destruct (f x); [|exact IH]. constructor; [exact IH|].
  apply Forall_forall. intros y Hy. apply filter_In in Hy as [Hy _].
  rewrite Forall_forall in Hx. apply Hx, Hy.
Qed.

Lemma dedup_go_sorted {A K} (R : A -> A -> Prop) (eqk : K -> K -> bool)
  (key : A -> K) l :
  StronglySorted R l ->
  forall keys, StronglySorted R (dedup_go eqk key l keys).
Proof.
  induction 1 as [|x l Hl IH Hx]; intros keys; simpl; [constructor|].
  destruct (existsb _ _); [apply IH|]. constructor; [apply IH|].
  apply Forall_forall. intros y Hy. apply dedup_go_in in Hy.
  rewrite Forall_forall in Hx. apply Hx, Hy.
Qed.

Lemma by_score_rank x y :
  by_score x y = true <->
  label_rank (c_label x) <= label_rank (c_label y).
Proof.
  unfold by_score, score_item.
  destruct (c_label x) as [[]|], (c_label y) as [[]|]; simpl;
    split; intros; try lia; try reflexivity; try discriminate.
Qed.

Lemma by_score_total x y : by_score x y = false -> by_score y x = true.
Proof.
  unfold by_score. intros H. apply Z.leb_gt in H. apply Z.leb_le. lia.
Qed.

Lemma by_score_trans x y z :
  by_score x y = true -> by_score y z = true -> by_score x z = true.
Proof. unfold by_score. rewrite !Z.leb_le. lia. Qed.

Lemma make_items_sorted clean : forall items,
  collect make_item clean = Ok items ->
  StronglySorted (fun x y => by_score x y = true) clean ->
  StronglySorted
    (fun x y => label_rank (i_label x) <= label_rank (i_label y)) items.
Proof.
  induction clean as [|a clean IH]; intros items; simpl.
  - intros [= <-] _. constructor.
  - destruct (make_item_some a) as [desc ->]. cbn [bind].
    destruct (collect make_item clean) as [items'|] eqn:Hi; [|discriminate].
    cbn [bind]. intros [= <-] Hs. inversion Hs as [|? ? Hs' Ha]; subst.
    constructor; [apply IH; [reflexivity|exact Hs']|].
    apply Forall_forall. intros it Hit.
    destruct (make_item_in _ _ _ Hi Hit) as (a' & Ha' & _ & _ & -> & _).
    simpl. rewrite Forall_forall in Ha. apply by_score_rank, Ha, Ha'.
Qed.

(** X9. The line items of a result are in the order of the scores: items
    labelled total_due come first, then those labelled subtotal, then those
    labelled tax, then the unlabelled ones. *)
Theorem items_in_score_order text :
  exists d, extract_fields parse text = Ok d /\
    StronglySorted
      (fun x y => label_rank (i_label x) <= label_rank (i_label y))
      (items_of d).
Proof.
  destruct (Str.strip text) as [|c0 t0] eqn:E.
  - exists []. unfold extract_fields. rewrite E. split; [reflexivity|constructor].
  - destruct (extract_fields_shape parse text)
      as (invoice & amounts & t & items & Ha & _ & Hi & H).
    { rewrite E. discriminate. }
    eexists. split; [exact H|].
    change (items_of _) with (dedup_by item_key_eqb item_key items).
    apply dedup_go_sorted. apply (make_items_sorted _ _ Hi).
    apply filter_sorted.
    unfold find_amounts_with_context in Ha.
    destruct (scan (Str.strip text)) as [found|]; [|discriminate].
    cbn [bind] in Ha. injection Ha as <-.
    apply sort_by_sorted; [exact by_score_total|exact by_score_trans].
Qed.

(** *** Texts without digits, and padding *)

Lemma needs_digit_amount : needs is_digit AMOUNT_RE.
Proof.
  unfold AMOUNT_RE. cbn. right. right. right. right. left.
  split; left; (split; [lia|auto]).
Qed.

Lemma needs_digit_date : needs is_digit DATE_RE.
Proof.
  unfold DATE_RE. cbn. right. left. repeat split.
  - left. split; [lia|auto].
  - left. split; [lia|auto].
  - right. right. left. split; [lia|auto].
Qed.

Lemma no_digit_existsb s :
  forallb (fun c => negb (is_digit c)) s = true -> existsb is_digit s = false.
Proof.
  induction s as [|c s IH]; simpl; [reflexivity|].
  intros H. apply andb_true_iff in H as [Hc H].
  apply negb_true_iff in Hc. rewrite Hc, IH by assumption. reflexivity.
Qed.

Lemma collect_all_nil {A B} (f : A -> result (list B)) l :
  (forall x, In x l -> f x = Ok []) -> collect_all f l = Ok [].
Proof.
  induction l as [|x l IH]; intros H; simpl; [reflexivity|].
  rewrite (H x (or_introl eq_refl)), IH; [reflexivity|].
  intros y Hy. apply H. right. exact Hy.
Qed.

Lemma no_digit_no_candidates text :
  forallb (fun c => negb (is_digit c)) text = true ->
  find_amounts_with_context text = Ok [].
Proof.
  intros H. unfold find_amounts_with_context, scan.
  rewrite collect_all_nil; [reflexivity|].
  intros [i ln] Hp. simpl.
  rewrite (ReadFacts.finditer_needs is_digit); [reflexivity|exact needs_digit_amount|].
  apply no_digit_existsb, (text_to_lines_chars _ text); [exact H|].
  unfold enumerate in Hp. apply in_combine_r in Hp. exact Hp.
Qed.

(** X10. A text without any digit gives no line items, no totals and no
    dates. *)
Theorem no_digits_nothing_found text :
  forallb (fun c => negb (is_digit c)) text = true ->
  exists d, extract_fields parse text = Ok d /\
    items_of d = [] /\ totals_of d = Totals None None None /\
    (d = [] \/
     dict_get "dates" d = Some (FDates (DateLabels None None None []))).
Proof.
  intros H.
  destruct (Str.strip text) as [|c0 t0] eqn:E.
  - exists []. unfold extract_fields. rewrite E. auto.
  - destruct (extract_fields_shape parse text)
      as (invoice & amounts & t & items & Ha & Ht & Hi & H').
    { rewrite E. discriminate. }
    pose proof (StripFacts.strip_forallb _ text H) as Hs.
    rewrite (no_digit_no_candidates _ Hs) in Ha. injection Ha as <-.
    simpl in Ht, Hi. injection Ht as <-. injection Hi as <-.
    assert (Hd : assignments parse (Str.strip text) = []).
    { unfold assignments.
      rewrite (ReadFacts.finditer_needs is_digit);
        [reflexivity|exact needs_digit_date|apply no_digit_existsb, Hs]. }
    rewrite Hd in H'. eexists. split; [exact H'|].
    split; [reflexivity|]. split; [reflexivity|]. right. reflexivity.
Qed.

(** X11. Whitespace before and after the text does not change the result
    of [extract_fields]. *)
Theorem surrounding_whitespace_ignored before text after :
  forallb Str.isspace before = true -> forallb Str.isspace after = true ->
  extract_fields parse (before ++ text ++ after) = extract_fields parse text.
Proof.
  intros Hb Ha. unfold extract_fields.
  rewrite (StripFacts.strip_padding before text after Hb Ha). reflexivity.
Qed.

End Further.

(** ** Spans of matches *)

Module SpanFacts.
Import Re.

Section Spans.

Variable A : Type.

Lemma advances_trans w1 w2 st1 st2 st3 :
  advances w1 st1 st2 -> advances w2 st2 st3 -> advances (w1 ++ w2) st1 st3.
Proof.
  intros [E1 I1] [E2 I2]. split.
  - rewrite E1, E2, app_assoc. reflexivity.
  - rewrite I2, I1, length_app. lia.
Qed.

Lemma rep_loop_advances (body : state -> (state -> option A) -> option A)
  lo hi (k : state -> option A) :
  (forall st k' a, body st k' = Some a ->
     exists st' w, k' st' = Some a /\ advances w st st') ->
  forall fuel i st a,
    rep_loop body lo hi k fuel i st = Some a ->
    exists st' w, k st' = Some a /\ advances w st st'.
Proof.
  intros Hbody.
  assert (Hstop : forall i st a,
            (if Nat.leb lo i then k st else None) = Some a ->
            exists st' w, k st' = Some a /\ advances w st st').
  { intros i st a H. destruct (Nat.leb lo i); [|discriminate].
    exists st, []. split; [exact H|]. split; [reflexivity|simpl; lia]. }
  induction fuel as [|fuel IH]; intros i st a; simpl.
  - apply Hstop.
  - destruct (below i hi); [|apply Hstop].
    destruct (body st _) as [a'|] eqn:Hb; [|apply Hstop].
    intros [= ->].
    apply Hbody in Hb as (st1 & w1 & Hk1 & Ha1).
    destruct (Nat.ltb (idx st) (idx st1)); [|discriminate].
    apply IH in Hk1 as (st' & w2 & Hk & Ha2).
    exists st', (w1 ++ w2). split; [exact Hk|].
    eapply advances_trans; eassumption.
Qed.

Lemma m_advances (r : regex) :
  forall st (k : state -> option A) a,
    m r st k = Some a ->
    exists st' w, k st' = Some a /\ advances w st st'.
Proof.
  assert (Hrefl : forall st, advances [] st st).
  { intros st. split; [reflexivity|simpl; lia]. }
  induction r as [|q|r1 IH1 r2 IH2|r1 IH1 r2 IH2|r IH lo hi|g' r IH|w|];
    intros st k a; cbn [m].
  - intros H. exists st, []. auto.
  - destruct (rest st) as [|c rest'] eqn:E; [discriminate|].
    destruct (q c); [|discriminate]. intros H.
    eexists. exists [c]. split; [exact H|]. split; simpl; [exact E|lia].
  - intros H. apply IH1 in H as (st1 & w1 & H & Ha1).
    apply IH2 in H as (st2 & w2 & H & Ha2).
    exists st2, (w1 ++ w2). split; [exact H|].
    eapply advances_trans; eassumption.
  - destruct (m r1 st k) as [a'|] eqn:H1.
    + intros [= ->]. apply IH1 in H1. exact H1.
    + intros H. apply IH2 in H. exact H.
  - intros H. eapply rep_loop_advances in H; [exact H|exact IH].
  - intros H. apply IH in H as (st1 & w1 & H & Ha1).
    eexists. exists w1. split; [exact H|]. exact Ha1.
  - destruct (xorb _ _); [|discriminate]. intros H. exists st, []. auto.
  - destruct (rest st) as [|c [|c' rest']]; try discriminate.
    + intros H. exists st, []. auto.
    + destruct (c =? 10)%N; [|discriminate]. intros H. exists st, []. auto.
Qed.

End Spans.

(** A search finds its match at a position of the text. *)
Lemma search_from_at r : forall s p i j st,
  search_from r p s i = Some (j, st) ->
  exists q, i <= j /\ match_here r q (skipn (j - i) s) j = Some st.
Proof.
  induction s as [|c s IH]; intros p i j st; simpl.
  - destruct (match_here r p [] i) as [st'|] eqn:H; [|discriminate].
    intros [= <- <-]. exists p. rewrite Nat.sub_diag. auto.
  - destruct (match_here r p (c :: s) i) as [st'|] eqn:H.
    + intros [= <- <-]. exists p. rewrite Nat.sub_diag. auto.
    + intros Hs. apply IH in Hs as (q & Hle & Hm). exists q.
      split; [lia|]. replace (j - i) with (S (j - S i)) by lia. exact Hm.
Qed.

(** The first group of [alpha_run] begins with a letter. *)
Lemma alpha_run_group ctx mt :
  search alpha_run ctx = Some mt ->
  exists c w, group ctx mt 1 = Some (c :: w) /\ Str.ascii_isalpha c = true.
Proof.
  unfold search.
  destruct (search_from alpha_run None ctx 0) as [[j st]|] eqn:Hs; [|discriminate].
  intros [= <-]. apply search_from_at in Hs as (q & _ & Hm).
  rewrite Nat.sub_0_r in Hm. unfold match_here, alpha_run, letter in Hm.
  cbn [m] in Hm. cbn [rest idx caps] in Hm.
  destruct (skipn j ctx) as [|c rest'] eqn:Ek; [discriminate|].
  destruct (Str.ascii_isalpha c) eqn:Hc; [|discriminate].
  apply m_advances in Hm as (st2 & w & Hk & Hrest & Hidx).
  cbn [rest idx] in Hrest, Hidx. injection Hk as <-.
  exists c, w. split; [|exact Hc].
  unfold group. cbn [m_caps caps lookup_cap Nat.eqb m_start m_end idx].
  unfold Str.slice. rewrite Ek, Hrest, Hidx.
  replace (S j + List.length w - j) with (S (List.length w)) by lia.
  cbn [firstn]. rewrite firstn_app, Nat.sub_diag, firstn_all. simpl.
  rewrite app_nil_r. reflexivity.
Qed.

End SpanFacts.

Section Descriptions.

Context {U : Unicode}.
Variable parse : date_order -> str -> option datetime.

Lemma letter_not_space c : Str.ascii_isalpha c = true -> Str.isspace c = false.
Proof.
  intros H. destruct (Str.isspace c) eqn:E; [|reflexivity]. exfalso.
  unfold Str.ascii_isalpha, Str.ascii_isupper, Str.ascii_islower in H.
  unfold Str.isspace in E.
  rewrite !orb_true_iff, !andb_true_iff, !N.leb_le in H.
  rewrite !orb_true_iff, !andb_true_iff, !N.leb_le, !N.eqb_eq in E. lia.
Qed.

Lemma describe_has_letter a desc :
  describe a = Ok (Some desc) -> has_letter desc = true.
Proof.
  unfold describe.
  destruct (has_letter (Str.strip _)) eqn:H1; [intros [= <-]; exact H1|].
  set (found := if Str.contains (u"|") (c_context a) then _ else None).
  assert (Hfound : forall p, found = Some p -> has_letter p = true).
  { unfold found. destruct (Str.contains _ _); [|discriminate].
    intros p Hp. apply find_some in Hp as [_ Hp]. exact Hp. }
  destruct (truthy found); [intros E; injection E as E; apply Hfound, E|].
  destruct (Re.search alpha_run (c_context a)) as [mt|] eqn:Hs.
  - destruct (SpanFacts.alpha_run_group _ _ Hs) as (c & w & -> & Hc).
    intros [= <-]. unfold Str.strip.
    rewrite (StripFacts.lstrip_fixed _ _ (letter_not_space c Hc)).
    rewrite (StripFacts.rstrip_cons _ _ (letter_not_space c Hc)).
    unfold has_letter. simpl. rewrite Hc. reflexivity.
  - intros E. injection E as E. apply Hfound, E.
Qed.

(** X12. The description of a line item is never an empty string: when it
    is present it contains a letter. *)
Theorem descriptions_have_letters text :
  exists d, extract_fields parse text = Ok d /\
    Forall (fun it => forall desc, i_description it = Some desc ->
                                   has_letter desc = true)
      (items_of d).
Proof.
  destruct (Str.strip text) as [|c0 t0] eqn:E.
  - exists []. unfold extract_fields. rewrite E. split; [reflexivity|constructor].
  - destruct (extract_fields_shape parse text)
      as (invoice & amounts & t & items & _ & _ & Hi & H).
    { rewrite E. discriminate. }
    eexists. split; [exact H|].
    change (items_of _) with (dedup_by item_key_eqb item_key items).
    apply Forall_forall. intros it Hit desc Hd. apply dedup_by_in in Hit.
    destruct (collect_in _ _ _ _ _ _ Hi Hit) as (a & _ & Hm).
    unfold make_item in Hm.
    destruct (describe a) as [o|] eqn:Hdesc; [|discriminate].
    simpl in Hm. injection Hm as <-. simpl in Hd. subst o.
    apply (describe_has_letter a desc Hdesc).
Qed.

End Descriptions.

(** ** The post-filter *)

Section PostFilter.

Context {U : Unicode}.
Variable parse : date_order -> str -> option datetime.

(** X15. No line item without a currency has a raw text that [PHONE_RE]
    matches or that contains more than twelve digits. *)
Theorem no_phone_shaped_items text d :
  extract_fields parse text = Ok d ->
  Forall (fun it => i_currency it = None ->
                    Re.search PHONE_RE (i_raw it) = None /\
                    List.length (digits_of (i_raw it)) <= 12)
    (items_of d).
Proof.
  intros H. apply Forall_forall. intros it Hit.
  pose proof (post_filter_sound parse text d H) as Hall.
  rewrite Forall_forall in Hall. exact (Hall it Hit).
Qed.

End PostFilter.

(** ** Tokens of digits *)

Section Tokens.

Context {U : Unicode}.

Lemma ascii_digit_value c :
  Str.ascii_isdigit c = true ->
  decimal_value c = Some (c - 48)%N /\ is_digit c = true /\
  (c =? 32)%N = false /\ (c =? 160)%N = false /\ (c =? 44)%N = false /\
  (c =? 46)%N = false /\ (c =? 45)%N = false.
Proof.
  intros H. unfold is_digit, decimal_value, Str.is_ascii. rewrite H.
  unfold Str.ascii_isdigit in H. apply andb_true_iff in H as [H1 H2].
  apply N.leb_le in H1, H2.
  assert (Ha : (c <? 128)%N = true) by (apply N.ltb_lt; lia).
  rewrite Ha. repeat split; try reflexivity; apply N.eqb_neq; lia.
Qed.

Lemma read_ascii_digits s : forall acc n,
  forallb Str.ascii_isdigit s = true ->
  read_digits s acc n =
  (fold_left (fun acc c => (10 * acc + (c - 48))%N) s acc,
   (n + N.of_nat (List.length s))%N, []).
Proof.
  induction s as [|c s IH]; intros acc n H; cbn [read_digits fold_left List.length].
  - f_equal. f_equal. lia.
  - cbn [forallb] in H. apply andb_true_iff in H as [Hc H].
    destruct (ascii_digit_value c Hc) as (-> & _).
    rewrite IH by assumption. f_equal. f_equal. lia.
Qed.

Lemma filter_all {A} (f : A -> bool) l :
  forallb f l = true -> filter f l = l.
Proof.
  induction l as [|x l IH]; simpl; [reflexivity|].
  intros H. apply andb_true_iff in H as [-> H]. rewrite IH by assumption.
  reflexivity.
Qed.

Lemma forallb_impl {A} (f g : A -> bool) l :
  (forall x, f x = true -> g x = true) ->
  forallb f l = true -> forallb g l = true.
Proof.
  intros Hfg. rewrite !forallb_forall. auto.
Qed.

Lemma digits_no_comma s :
  forallb Str.ascii_isdigit s = true -> occurs 44%N s = false.
Proof.
  unfold occurs. induction s as [|c s IH]; cbn [existsb forallb]; [reflexivity|].
  intros H. apply andb_true_iff in H as [Hc H].
  destruct (ascii_digit_value c Hc) as (_ & _ & _ & _ & E & _).
  rewrite N.eqb_sym, E, IH by assumption. reflexivity.
Qed.

(** What [parse_amount_text] does with a head character [h] that is no
    blank and no separator, before digits. *)
Lemma parse_headed_digits (h : Str.char) (s : str) :
  (h =? 32)%N = false -> (h =? 160)%N = false -> (h =? 44)%N = false ->
  forallb Str.ascii_isdigit s = true ->
  parse_amount_text (h :: s) =
  match py_float (filter (fun c => is_digit c || (c =? 46)%N || (c =? 45)%N)
                    [h] ++ s) with
  | Ok f => Some f
  | Raise _ => None
  end.
Proof.
  intros H32 H160 H44 Hs. rewrite parse_amount_text_spec.
  unfold parse_amount_amended.
  assert (Htok : strip_char 32%N (strip_char 160%N (h :: s)) = h :: s).
  { assert (E160 : strip_char 160%N (h :: s) = h :: s).
    { apply filter_all. cbn [forallb]. rewrite H160. cbn [negb andb].
      eapply forallb_impl; [|exact Hs].
      intros c Hc. destruct (ascii_digit_value c Hc) as (_ & _ & _ & -> & _).
      reflexivity. }
    rewrite E160. apply filter_all. cbn [forallb]. rewrite H32. cbn [negb andb].
    eapply forallb_impl; [|exact Hs].
    intros c Hc. destruct (ascii_digit_value c Hc) as (_ & _ & -> & _).
    reflexivity. }
  rewrite Htok.
  assert (Hnorm : normalize_spec (h :: s) = h :: s).
  { unfold normalize_spec.
    assert (E : occurs 44%N (h :: s) = false).
    { unfold occurs. cbn [existsb]. rewrite N.eqb_sym, H44.
      apply digits_no_comma, Hs. }
    rewrite E. reflexivity. }
  rewrite Hnorm. cbn [filter app].
  replace (filter (fun c => is_digit c || (c =? 46)%N || (c =? 45)%N) s)
    with s.
  - destruct (is_digit h || (h =? 46)%N || (h =? 45)%N); reflexivity.
  - symmetry. apply filter_all. eapply forallb_impl; [|exact Hs].
    intros c Hc. destruct (ascii_digit_value c Hc) as (_ & -> & _). reflexivity.
Qed.

Lemma py_float_digits (s : str) :
  s <> [] -> forallb Str.ascii_isdigit s = true ->
  py_float s = Ok (Float.round_decimal false (digits_value s) 0) /\
  py_float (45%N :: s) = Ok (Float.round_decimal true (digits_value s) 0).
Proof.
  intros Hne Hs. unfold py_float, digits_value.
  assert (Hn : (0 + N.of_nat (List.length s) =? 0)%N = false).
  { apply N.eqb_neq. destruct s; [congruence|simpl; lia]. }
  split.
  - destruct s as [|c s']; [congruence|].
    cbn [forallb] in Hs. pose proof Hs as Hs'.
    apply andb_true_iff in Hs' as [Hc _].
    destruct (ascii_digit_value c Hc) as (_ & _ & _ & _ & _ & _ & ->).
    rewrite (read_ascii_digits (c :: s') 0 0 Hs), Hn. reflexivity.
  - rewrite N.eqb_refl, (read_ascii_digits s 0 0 Hs), Hn. reflexivity.
Qed.

(** Evaluate the conversion at the head of the goal with an equation that
    is known for it. *)
Ltac converted H :=
  match goal with
  | |- match ?x with Ok _ => _ | Raise _ => _ end = _ =>
      match type of H with
      | _ = ?v => replace x with v by (symmetry; exact H)
      end
  end.

Lemma parse_digits (s : str) :
  s <> [] -> forallb Str.ascii_isdigit s = true ->
  parse_amount_text s = Some (Float.round_decimal false (digits_value s) 0).
Proof.
  intros Hne Hs. destruct (py_float_digits s Hne Hs) as [Hp _].
  destruct s as [|c s']; [congruence|].
  cbn [forallb] in Hs. pose proof Hs as Hs'.
  apply andb_true_iff in Hs' as [Hc Hs'].
  destruct (ascii_digit_value c Hc) as (_ & Hd & H32 & H160 & H44 & _).
  etransitivity; [apply (parse_headed_digits c s' H32 H160 H44 Hs')|].
  cbn [filter app]. rewrite Hd. cbn [orb app]. converted Hp. reflexivity.
Qed.

(** X13. A non-empty token of ASCII digits always converts: the result is
    the float nearest to the number that the digits denote, and with a
    leading ['-'] it is the float of the opposite sign. *)
Theorem digit_tokens_convert (s : str) :
  s <> [] -> forallb Str.ascii_isdigit s = true ->
  parse_amount_text s =
    Some (Float.round_decimal false (digits_value s) 0) /\
  parse_amount_text (45%N :: s) =
    Some (Float.round_decimal true (digits_value s) 0).
Proof.
  intros Hne Hs. split; [apply parse_digits; assumption|].
  destruct (py_float_digits s Hne Hs) as [_ Hm].
  etransitivity;
    [apply (parse_headed_digits 45%N s eq_refl eq_refl eq_refl Hs)|].
  cbn [filter app]. rewrite orb_true_r. cbn [app]. converted Hm. reflexivity.
Qed.

(** X14. [AMOUNT_RE] takes the minus sign U+2212 as a sign, but
    [parse_amount_text] drops it with the other characters that are no
    digit, point or hyphen: before digits it changes nothing, the value
    stays positive. *)
Theorem unicode_minus_dropped (s : str) :
  uni_decimal 8722%N = None ->
  s <> [] -> forallb Str.ascii_isdigit s = true ->
  parse_amount_text (8722%N :: s) = parse_amount_text s /\
  parse_amount_text (8722%N :: s) =
    Some (Float.round_decimal false (digits_value s) 0).
Proof.
  intros HU Hne Hs. pose proof (parse_digits s Hne Hs) as Hp.
  assert (E : parse_amount_text (8722%N :: s) =
              Some (Float.round_decimal false (digits_value s) 0)).
  { etransitivity;
      [apply (parse_headed_digits 8722%N s eq_refl eq_refl eq_refl Hs)|].
    cbn [filter app].
    assert (Hd : is_digit 8722%N = false).
    { unfold is_digit, decimal_value. simpl. rewrite HU. reflexivity. }
    rewrite Hd. cbn [orb N.eqb Pos.eqb app].
    destruct (py_float_digits s Hne Hs) as [Hf _]. converted Hf. reflexivity. }
  split; [rewrite E, Hp; reflexivity|exact E].
Qed.

End Tokens.

(** ** Closed examples of the further properties *)

(** X10, witness: two lines of words. *)
Lemma no_digits_witness :
  forallb (fun c => negb (@is_digit ascii_tables c)) words_text = true /\
  exists d, @extract_fields ascii_tables numeric_dates words_text = Ok d /\
    items_of d = [] /\ totals_of d = Totals None None None /\
    (d = [] \/
     dict_get "dates" d = Some (FDates (DateLabels None None None []))).
Proof.
  split; [reflexivity|].
  apply (@no_digits_nothing_found ascii_tables numeric_dates words_text).
  reflexivity.
Defined.

(** X11, witness: the two fee lines between blanks and a line feed. *)
Lemma surrounding_whitespace_witness :
  forallb Str.isspace (u"  ") = true /\
  forallb Str.isspace [10; 32]%N = true /\
  @extract_fields ascii_tables numeric_dates padded_fee_text =
  @extract_fields ascii_tables numeric_dates fee_text.
Proof.
  split; [reflexivity|]. split; [reflexivity|].
  apply (@surrounding_whitespace_ignored ascii_tables numeric_dates
           (u"  ") fee_text [10; 32]%N); reflexivity.
Defined.

(** X15, witness: a phone number written in groups is dropped and
    the amount with a currency stays. *)
Lemma post_filter_witness :
  exists d,
    @extract_fields ascii_tables numeric_dates spaced_phone_text = Ok d /\
    map i_raw (items_of d) = [u"$25"] /\
    Forall (fun it => i_currency it = None ->
                      Re.search (@PHONE_RE ascii_tables) (i_raw it) = None /\
                      List.length (@digits_of ascii_tables (i_raw it)) <= 12)
      (items_of d).
Proof.
  assert (H : exists d,
            @extract_fields ascii_tables numeric_dates spaced_phone_text = Ok d /\
            map i_raw (items_of d) = [u"$25"])
    by (vm_compute; eexists; split; reflexivity).
  destruct H as (d & H & Hraw). exists d. split; [exact H|]. split; [exact Hraw|].
  exact (@no_phone_shaped_items ascii_tables numeric_dates spaced_phone_text d H).
Defined.

(** X13, witness: the token ["2500"]. *)
Lemma digit_tokens_witness :
  u"2500" <> [] /\ forallb Str.ascii_isdigit (u"2500") = true /\
  @parse_amount_text ascii_tables (u"2500") =
    Some (Float.round_decimal false (digits_value (u"2500")) 0) /\
  @parse_amount_text ascii_tables (45%N :: u"2500") =
    Some (Float.round_decimal true (digits_value (u"2500")) 0).
Proof.
  assert (H1 : u"2500" <> []) by (vm_compute; discriminate).
  assert (H2 : forallb Str.ascii_isdigit (u"2500") = true) by reflexivity.
  split; [exact H1|]. split; [exact H2|].
  exact (@digit_tokens_convert ascii_tables (u"2500") H1 H2).
Defined.

(** X14, witness: U+2212 before ["2500"]. *)
Lemma unicode_minus_witness :
  @uni_decimal ascii_tables 8722%N = None /\
  @parse_amount_text ascii_tables (8722%N :: u"2500") =
    @parse_amount_text ascii_tables (u"2500") /\
  @parse_amount_text ascii_tables (8722%N :: u"2500") =
    Some (Float.round_decimal false (digits_value (u"2500")) 0).
Proof.
  assert (H1 : u"2500" <> []) by (vm_compute; discriminate).
  split; [reflexivity|].
  exact (@unicode_minus_dropped ascii_tables (u"2500") eq_refl H1 eq_refl).
Defined.
